(** * cc-switcher ([cs]): a shallow embedding of [main.go]

    The program reads a per-user YAML file of named environments, looks one
    up by the command-line argument, and launches its target command with
    the configured variables laid over the inherited environment.

    The embedding follows [main.go] function by function, in explicit
    state-passing style over a record [OS] that holds the files, the
    process environment and a trace of everything the program does to the
    outside.  What the program takes from outside the repository is
    modelled next to the Go behaviour it stands for: [unicode/utf8],
    [unicode.IsSpace] and [strings.Fields]; the calls of packages [os],
    [os/exec], [fmt] and [log] that [main.go] makes; and, in module [Yaml],
    the YAML package on the fragment the configuration file is written
    in.  The order in which Go ranges over a map and the YAML parser are
    parameters of the general results. *)

From Stdlib Require Import ZArith Ascii String List Lia Bool.
From stdpp Require Import gmap strings list fin_maps.

Local Open Scope Z_scope.

(** ** Go strings

    A Go [string] is a sequence of bytes; Rocq's [string] is the same thing
    (a list of [ascii], 8 bits each).  [[]byte(s)] is
    [list_ascii_of_string]. *)

Definition byte_val (c : ascii) : Z := Z.of_N (N_of_ascii c).

(** ** [unicode/utf8]: decoding one rune, as [utf8.DecodeRuneInString] *)
Module Utf8.

Definition RuneError : Z := 0xFFFD.
Definition maskx : Z := 0x3F.
Definition mask2 : Z := 0x1F.
Definition mask3 : Z := 0x0F.
Definition mask4 : Z := 0x07.
Definition locb : Z := 0x80.
Definition hicb : Z := 0xBF.

(** The table [first] together with [acceptRanges]: what a leading byte
    announces.  [lead sz lo hi] is a sequence of [sz] bytes whose second
    byte must lie in [lo..hi]. *)
Inductive first_info :=
| as_ascii
| xx_invalid
| lead (sz : nat) (lo hi : Z).

Definition first (b : Z) : first_info :=
  if b <? 0x80 then as_ascii
  else if b <? 0xC2 then xx_invalid
  else if b <? 0xE0 then lead 2 locb hicb
  else if b =? 0xE0 then lead 3 0xA0 hicb
  else if b <? 0xED then lead 3 locb hicb
  else if b =? 0xED then lead 3 locb 0x9F
  else if b <? 0xF0 then lead 3 locb hicb
  else if b =? 0xF0 then lead 4 0x90 hicb
  else if b <? 0xF4 then lead 4 locb hicb
  else if b =? 0xF4 then lead 4 locb 0x8F
  else xx_invalid.

Definition at_byte (p : list ascii) (i : nat) : Z :=
  byte_val (nth i p Ascii.zero).

(** Returns the rune and its width in bytes; an invalid or truncated
    sequence decodes to [(RuneError, 1)], the empty input to
    [(RuneError, 0)]. *)
Definition DecodeRune (p : list ascii) : Z * nat :=
  match p with
  | [] => (RuneError, 0%nat)
  | c0 :: _ =>
    let s0 := byte_val c0 in
    match first s0 with
    | as_ascii => (s0, 1%nat)
    | xx_invalid => (RuneError, 1%nat)
    | lead sz lo hi =>
      if (length p <? sz)%nat then (RuneError, 1%nat) else
      let s1 := at_byte p 1 in
      if (s1 <? lo) || (hi <? s1) then (RuneError, 1%nat) else
      if (sz <=? 2)%nat then
        (Z.lor (Z.shiftl (Z.land s0 mask2) 6) (Z.land s1 maskx), 2%nat)
      else
      let s2 := at_byte p 2 in
      if (s2 <? locb) || (hicb <? s2) then (RuneError, 1%nat) else
      if (sz <=? 3)%nat then
        (Z.lor (Z.lor (Z.shiftl (Z.land s0 mask3) 12)
                      (Z.shiftl (Z.land s1 maskx) 6))
               (Z.land s2 maskx), 3%nat)
      else
      let s3 := at_byte p 3 in
      if (s3 <? locb) || (hicb <? s3) then (RuneError, 1%nat) else
        (Z.lor (Z.lor (Z.lor (Z.shiftl (Z.land s0 mask4) 18)
                             (Z.shiftl (Z.land s1 maskx) 12))
                      (Z.shiftl (Z.land s2 maskx) 6))
               (Z.land s3 maskx), 4%nat)
    end
  end.

(** [for _, r := range s]: the runes of [s] in order, each with the bytes
    it was decoded from.  The fuel bounds the number of runes; a string
    has at most as many runes as bytes. *)
Fixpoint range_fuel (fuel : nat) (p : list ascii) : list (Z * list ascii) :=
  match fuel with
  | O => []
  | S fuel' =>
    match p with
    | [] => []
    | _ :: _ =>
      let '(r, w) := DecodeRune p in
      (r, take w p) :: range_fuel fuel' (drop w p)
    end
  end.

Definition range (p : list ascii) : list (Z * list ascii) :=
  range_fuel (length p) p.

End Utf8.

(** ** [unicode.IsSpace] *)
Definition IsSpace (r : Z) : bool :=
  if r <=? 0xFF then
    (* '\t', '\n', '\v', '\f', '\r', ' ', U+0085 (NEL), U+00A0 (NBSP) *)
    (r =? 0x09) || (r =? 0x0A) || (r =? 0x0B) || (r =? 0x0C) || (r =? 0x0D)
    || (r =? 0x20) || (r =? 0x85) || (r =? 0xA0)
  else
    (* the rest of the White_Space range table *)
    (r =? 0x1680) || ((0x2000 <=? r) && (r <=? 0x200A))
    || (r =? 0x2028) || (r =? 0x2029) || (r =? 0x202F) || (r =? 0x205F)
    || (r =? 0x3000).

(** ** [strings.Fields] *)
Module Strings.

(** One decoded rune with its bytes. *)
Definition rune : Type := (Z * list ascii)%type.

Definition is_space (x : rune) : bool := IsSpace (fst x).

(** The loop of [strings.FieldsFunc]: [cur] is the field being read
    ([start >= 0] in Go), [None] between fields.  Go records index spans
    and slices the string afterwards; here the bytes of the open field
    are collected directly. *)
Fixpoint FieldsFunc_loop (f : rune -> bool) (cur : option (list ascii))
    (rs : list rune) : list (list ascii) :=
  match rs with
  | [] => match cur with Some t => [t] | None => [] end
  | x :: rs' =>
    if f x then
      match cur with
      | Some t => t :: FieldsFunc_loop f None rs'
      | None => FieldsFunc_loop f None rs'
      end
    else
      FieldsFunc_loop f (Some (default [] cur ++ snd x)) rs'
  end.

Definition FieldsFunc (f : rune -> bool) (s : string) : list string :=
  string_of_list_ascii <$>
    FieldsFunc_loop f None (Utf8.range (list_ascii_of_string s)).

(** [strings.Fields(s)]: split around each run of white space characters
    as defined by [unicode.IsSpace]; the ASCII fast path of the Go
    implementation computes the same result. *)
Definition Fields (s : string) : list string := FieldsFunc is_space s.

End Strings.

(** ** Errors

    A Go [error] is a value with a message.  [errorString] is what
    [fmt.Errorf] returns for a format without [%w], [wrapError] what it
    returns for ["...: %w"], and [PathError] is [*fs.PathError], the error
    of the file-system calls of package [os]. *)

Definition path := list string.

Inductive Errno := ENOENT | ENOTDIR | EISDIR | EROFS | EACCES.

Inductive error :=
| errorString (msg : string)
| wrapError (prefix : string) (err : error)
| PathError (op : string) (p : path) (errno : Errno).

Inductive result (A : Type) :=
| Ok (a : A)
| Err (err : error).
Arguments Ok {A} a.
Arguments Err {A} err.

#[global] Instance Errno_eq_dec : EqDecision Errno.
Proof. solve_decision. Defined.

#[global] Instance error_eq_dec : EqDecision error.
Proof. solve_decision. Defined.

Definition Errno_message (e : Errno) : string :=
  match e with
  | ENOENT => "no such file or directory"
  | ENOTDIR => "not a directory"
  | EISDIR => "is a directory"
  | EROFS => "read-only file system"
  | EACCES => "permission denied"
  end.

(** A path is kept as its list of components, the form [filepath.Clean]
    normalises to; it prints with the separator in front of each one. *)
Definition path_string (p : path) : string :=
  foldr (fun c acc => "/" +:+ c +:+ acc) "" p.

Fixpoint Error (e : error) : string :=
  match e with
  | errorString msg => msg
  | wrapError prefix err => prefix +:+ Error err
  | PathError op p errno =>
    op +:+ " " +:+ path_string p +:+ ": " +:+ Errno_message errno
  end.

(** [filepath.Join(dir, elem)] for a single-component [elem], and
    [filepath.Dir]. *)
Definition filepath_Join (dir : path) (elem : string) : path := dir ++ [elem].
Definition filepath_Dir (p : path) : path := removelast p.

(** ** [os/exec]: the command value *)

(** [exec.Cmd], the fields [main.go] sets.  [Env = None] is Go's nil slice:
    the child then uses the environment of the current process. *)
Record Cmd := mkCmd {
  Path : string;
  Args : list string;
  Env : option (list string);
  Stdin : bool;   (* connected to os.Stdin *)
  Stdout : bool;  (* connected to os.Stdout *)
  Stderr : bool;  (* connected to os.Stderr *)
}.

(** [exec.Command(name, arg...)]: [Args] holds the name followed by the
    arguments.  [Path] is the name as it was given; looking a bare name up
    in the directories of [PATH] belongs to starting the command. *)
Definition exec_Command (name : string) (arg : list string) : Cmd :=
  {| Path := name; Args := name :: arg; Env := None;
     Stdin := false; Stdout := false; Stderr := false |}.

Definition set_Env (env : list string) (c : Cmd) : Cmd :=
  {| Path := Path c; Args := Args c; Env := Some env;
     Stdin := Stdin c; Stdout := Stdout c; Stderr := Stderr c |}.

Definition inherit_stdio (c : Cmd) : Cmd :=
  {| Path := Path c; Args := Args c; Env := Env c;
     Stdin := true; Stdout := true; Stderr := true |}.

(** *** What an environment block means

    An environment is a list of ["KEY=value"] strings.  The name of an entry
    is the text before its first ['='], and, as [exec.Cmd.Env] documents,
    when a name occurs more than once only the last value is used.  Entries
    without ['='] define nothing. *)
Fixpoint IndexByte (s : list ascii) (c : ascii) : option nat :=
  match s with
  | [] => None
  | x :: s' => if decide (x = c) then Some O else S <$> IndexByte s' c
  end.

Definition env_entry (kv : string) : option (string * string) :=
  let b := list_ascii_of_string kv in
  match IndexByte b "="%char with
  | Some i => Some (string_of_list_ascii (take i b),
                    string_of_list_ascii (drop (S i) b))
  | None => None
  end.

Definition env_map (env : list string) : gmap string string :=
  foldl (fun m kv => match env_entry kv with
                     | Some (k, v) => <[k := v]> m
                     | None => m
                     end) ∅ env.

(** *** What [Cmd.Run] makes of [Env]

    Before it starts anything, [os/exec] goes through the list from its
    last entry to its first ([dedupEnv]).  An entry that holds a NUL byte
    is dropped and makes the call fail.  Of the entries that name the same
    variable only the last one is kept, where the name is the text before
    the first ['='] or, for an entry that begins with ['='], the text
    before the second one.  An entry without ['='] is kept unless it is
    empty. *)
Definition has_NUL (kv : string) : bool :=
  bool_decide ("000"%char ∈ list_ascii_of_string kv).

Definition dedup_key (kv : string) : option string :=
  let b := list_ascii_of_string kv in
  match IndexByte b "="%char with
  | None => None
  | Some O =>
    match IndexByte (drop 1 b) "="%char with
    | Some j => Some (string_of_list_ascii (take (S j) b))
    | None => Some ""%string
    end
  | Some i => Some (string_of_list_ascii (take i b))
  end.

Definition ErrNUL : error :=
  errorString "exec: environment variable contains NUL".

(** One round of the loop of [dedupEnv]: the entries kept so far, the
    names seen so far, and whether a NUL byte was met. *)
Definition dedup_step (kv : string)
    (acc : list string * gset string * bool) : list string * gset string * bool :=
  if has_NUL kv then (acc.1.1, acc.1.2, true)
  else match dedup_key kv with
       | None =>
         if decide (kv = ""%string) then acc
         else (kv :: acc.1.1, acc.1.2, acc.2)
       | Some k =>
         if decide (k ∈ acc.1.2) then acc
         else (kv :: acc.1.1, {[ k ]} ∪ acc.1.2, acc.2)
       end.

(** [dedupEnv]: the loop runs from the last entry to the first and the
    result is put back in the order of the list. *)
Definition dedupEnv (env : list string) : list string * option error :=
  let r := foldr dedup_step ([], ∅, false) env in
  (r.1.1, if r.2 then Some ErrNUL else None).

(** The list [Cmd.Run] works from: [Env], or the environment of the
    current process when [Env] is nil. *)
Definition Cmd_env (parent : list string) (c : Cmd) : list string :=
  match Env c with
  | None => parent
  | Some env => env
  end.

(** The environment the child of [c] sees when the parent's is [parent]. *)
Definition Cmd_environ (parent : list string) (c : Cmd) : list string :=
  fst (dedupEnv (Cmd_env parent c)).

(** ** Package [os]: the world the program runs in

    The files and directories are a finite map from paths to nodes.  A
    call fails when something of the wrong kind stands in the way (a file
    where a directory is needed, a directory where a file is read or
    written), when what it needs is missing, or, for a call that would
    change something, when the file system refuses the change
    ([os_readonly], which stands for every refusal of this kind: a
    read-only mount, missing permissions, a full disk).  Making a
    directory and writing a file are two calls, and the second can be
    refused where the first was not: a directory made under a restrictive
    umask takes no file.  Reading is not refused: a file that is there
    can be read. *)

Inductive node :=
| Dir
| File (data : string).

#[global] Instance node_eq_dec : EqDecision node.
Proof. solve_decision. Defined.

(** Everything the program does to the outside, in order. *)
Inductive event :=
| EvStdout (line : string)
| EvStderr (line : string)
| EvStat (p : path)
| EvMkdirAll (p : path)
| EvWriteFile (p : path) (data : string)
| EvReadFile (p : path)
| EvRun (c : Cmd) (environ : list string).

(** How far the file system takes changes: all of them; new directories
    but no file; none. *)
Inductive refusal :=
| accepts_changes
| refuses_files
| refuses_changes.

Record OS := mkOS {
  os_home : option path;            (* the user's home directory, if known *)
  os_environ : list string;         (* the environment of this process *)
  os_fs : gmap path node;           (* files and directories; [] is the root *)
  os_refusal : refusal;             (* what the file system refuses *)
  os_lookPath : string -> option error;
                                    (* the error [exec.Command] keeps when it
                                       looks a name up: [None] when the name
                                       is found or is not looked up *)
  os_spawn : Cmd -> list string -> option error;
                                    (* what starting a command with this
                                       environment and waiting for it
                                       yields: [None] for exit 0 *)
  os_trace : list event;
}.

(** The file system refuses to write a file. *)
Definition os_readonly (o : OS) : bool :=
  match os_refusal o with
  | accepts_changes => false
  | _ => true
  end.

(** The file system refuses to make a directory. *)
Definition os_no_mkdir (o : OS) : bool :=
  match os_refusal o with
  | refuses_changes => true
  | _ => false
  end.

(** The reason it gives. *)
Definition os_errno (o : OS) : Errno :=
  match os_refusal o with
  | refuses_files => EACCES
  | _ => EROFS
  end.

Definition emit (e : event) (o : OS) : OS :=
  {| os_home := os_home o; os_environ := os_environ o; os_fs := os_fs o;
     os_refusal := os_refusal o; os_lookPath := os_lookPath o;
     os_spawn := os_spawn o;
     os_trace := os_trace o ++ [e] |}.

Definition set_fs (fs : gmap path node) (o : OS) : OS :=
  {| os_home := os_home o; os_environ := os_environ o; os_fs := fs;
     os_refusal := os_refusal o; os_lookPath := os_lookPath o;
     os_spawn := os_spawn o;
     os_trace := os_trace o |}.

Definition fs_node (fs : gmap path node) (p : path) : option node :=
  match p with
  | [] => Some Dir
  | _ => fs !! p
  end.

Definition is_file (n : option node) : bool :=
  match n with Some (File _) => true | _ => false end.

Definition is_dir (n : option node) : bool :=
  match n with Some Dir => true | _ => false end.

(** The non-empty prefixes of [p], shortest first, [p] itself last. *)
Definition prefixes (p : path) : list path :=
  (fun n => take n p) <$> seq 1 (length p).

(** The files once [dir] and all its parents are directories. *)
Definition with_dirs (fs : gmap path node) (dir : path) : gmap path node :=
  foldr (fun q fs => <[q := Dir]> fs) fs (prefixes dir).

(** Some proper ancestor of [p] is a regular file. *)
Definition blocked (fs : gmap path node) (p : path) : bool :=
  existsb (fun q => is_file (fs_node fs q)) (prefixes (filepath_Dir p)).

Definition os_UserHomeDir (o : OS) : result path :=
  match os_home o with
  | Some h => Ok h
  | None => Err (errorString "$HOME is not defined")
  end.

Definition os_Environ (o : OS) : list string := os_environ o.

(** What [Cmd.Run] yields for the command [c], which it would start with
    the environment [environ].  It starts nothing and returns the error
    kept by [exec.Command] when the name was not found, and, next, the
    error of [dedupEnv] when an entry of the environment holds a NUL
    byte. *)
Definition os_child (o : OS) (c : Cmd) (environ : list string)
    : option error :=
  match os_lookPath o (Path c) with
  | Some err => Some err
  | None =>
    match snd (dedupEnv (Cmd_env (os_Environ o) c)) with
    | Some err => Some err
    | None => os_spawn o c environ
    end
  end.

(** [os.Stat]: [None] is a nil error. *)
Definition os_Stat (p : path) (o : OS) : option error * OS :=
  let o1 := emit (EvStat p) o in
  if blocked (os_fs o) p then (Some (PathError "stat" p ENOTDIR), o1)
  else match fs_node (os_fs o) p with
       | Some _ => (None, o1)
       | None => (Some (PathError "stat" p ENOENT), o1)
       end.

(** [os.IsNotExist]. *)
Definition os_IsNotExist (err : option error) : bool :=
  match err with
  | Some (PathError _ _ ENOENT) => true
  | _ => false
  end.

(** The first of the paths [pre] for which [f] holds, [p] if there is
    none. *)
Definition first_where (f : path -> bool) (pre : list path) (p : path) : path :=
  default p (find f pre).

(** [os.MkdirAll]: succeeds without a change when the directory is there,
    creates it with all missing parents otherwise.  Its error names the
    component that could not be passed or made. *)
Definition os_MkdirAll (p : path) (o : OS) : option error * OS :=
  let o1 := emit (EvMkdirAll p) o in
  let pre := prefixes p in
  if existsb (fun q => is_file (fs_node (os_fs o) q)) pre then
    (Some (PathError "mkdir"
             (first_where (fun q => is_file (fs_node (os_fs o) q)) pre p)
             ENOTDIR), o1)
  else if forallb (fun q => is_dir (fs_node (os_fs o) q)) pre then
    (None, o1)
  else if os_no_mkdir o then
    (Some (PathError "mkdir"
             (first_where (fun q => negb (is_dir (fs_node (os_fs o) q))) pre p)
             EROFS), o1)
  else
    (None, set_fs (with_dirs (os_fs o) p) o1).

(** [os.WriteFile]: creates the file or replaces its content. *)
Definition os_WriteFile (p : path) (data : string) (o : OS)
    : option error * OS :=
  let o1 := emit (EvWriteFile p data) o in
  if blocked (os_fs o) p then (Some (PathError "open" p ENOTDIR), o1)
  else if negb (is_dir (fs_node (os_fs o) (filepath_Dir p))) then
    (Some (PathError "open" p ENOENT), o1)
  else if is_dir (fs_node (os_fs o) p) then
    (Some (PathError "open" p EISDIR), o1)
  else if os_readonly o then
    (Some (PathError "open" p (os_errno o)), o1)
  else
    (None, set_fs (<[p := File data]> (os_fs o)) o1).

(** [os.ReadFile]. *)
Definition os_ReadFile (p : path) (o : OS) : result string * OS :=
  let o1 := emit (EvReadFile p) o in
  if blocked (os_fs o) p then (Err (PathError "open" p ENOTDIR), o1)
  else match fs_node (os_fs o) p with
       | Some (File data) => (Ok data, o1)
       | Some Dir => (Err (PathError "read" p EISDIR), o1)
       | None => (Err (PathError "open" p ENOENT), o1)
       end.

(** [Cmd.Run] of [os/exec]: start the command, wait for it, report how it
    went.  The event records the call and the environment worked out for
    the child; whether a child came of it is in what the call returns.
    What the child itself does to the files is not followed. *)
Definition Cmd_Run (c : Cmd) (o : OS) : option error * OS :=
  let environ := Cmd_environ (os_Environ o) c in
  (os_child o c environ, emit (EvRun c environ) o).

(** [fmt.Println] and [fmt.Printf] with a trailing newline: one line on
    standard output. *)
Definition fmt_Println (line : string) (o : OS) : OS := emit (EvStdout line) o.

(** [log.Fatalf]: one line on standard error (the time stamp the logger
    puts in front is left out); the caller then exits with status 1. *)
Definition log_Fatalf (line : string) (o : OS) : OS := emit (EvStderr line) o.

(** ** The data model of [main.go] *)

(** [type Environment struct]: the target command line and the variables
    to set.  The Go field holding the variables is itself called
    [Environment]; it is [Variables] here, as a record and its field
    cannot share a name.  A nil and an empty Go map behave alike under
    [len] and [range], the two things the program does with this one. *)
Record Environment := mkEnvironment {
  Target : string;
  Variables : gmap string string;
}.

(** [type Config struct].  [None] is the nil map, which [LoadConfig] tests
    for. *)
Record Config := mkConfig {
  Environments : option (gmap string Environment);
}.

(** ** [gopkg.in/yaml.v3] on the fragment the configuration file uses

    The package is not part of the repository.  The general results below
    take the parser as a parameter; this module is an executable stand-in
    for block mappings with plain or double-quoted scalars and comments,
    written in printable ASCII, which is the form of the default file and
    of the documented examples.  Content outside this fragment is not
    accepted: bytes beyond printable ASCII and the line feed, escapes,
    flow collections other than [{}], scalars over several lines, the
    merge key, and a null written as a key, which the package would drop.
    What the stand-in accepts it reads as the package does; its error says
    no more than that the document is not accepted, where the package
    words its errors by kind and line. *)
Module Yaml.

#[warnings="-register-all"]
Inductive value :=
| Null
| Scalar (s : string)
| Mapping (entries : list (string * value)).

(** What follows the colon on a line. *)
Inductive rhs :=
| RNone
| RScalar (s : string)
| REmptyMap.

Record line := mkLine { indent : nat; key : string; rest : rhs }.

Definition LF : ascii := "010"%char.
Definition TAB : ascii := "009"%char.
Definition CR : ascii := "013"%char.
Definition DQUOTE : ascii := "034"%char.

Definition is_blank (c : ascii) : bool :=
  bool_decide (c = " "%char) || bool_decide (c = TAB) || bool_decide (c = CR).

Fixpoint split_lines (cur : list ascii) (s : list ascii) : list (list ascii) :=
  match s with
  | [] => [rev cur]
  | c :: s' =>
    if decide (c = LF) then rev cur :: split_lines [] s'
    else split_lines (c :: cur) s'
  end.

Fixpoint drop_blank (s : list ascii) : list ascii :=
  match s with
  | c :: s' => if is_blank c then drop_blank s' else s
  | [] => []
  end.

Definition trim_right (s : list ascii) : list ascii :=
  rev (drop_blank (rev s)).

Fixpoint count_spaces (s : list ascii) : nat :=
  match s with
  | c :: s' => if decide (c = " "%char) then S (count_spaces s') else O
  | [] => O
  end.

(** Nothing but blanks, or blanks and then a comment. *)
Definition only_comment (s : list ascii) : bool :=
  match drop_blank s with
  | [] => true
  | c :: _ => bool_decide (c = "#"%char)
  end.

(** The rest of a line after a complete token: empty, or separated from a
    comment by a blank. *)
Definition line_ends (s : list ascii) : bool :=
  match s with
  | [] => true
  | c :: _ => is_blank c && only_comment s
  end.

(** Up to the closing quote; escapes are outside the fragment. *)
Fixpoint read_quoted (acc : list ascii) (s : list ascii)
    : option (list ascii * list ascii) :=
  match s with
  | [] => None
  | c :: s' =>
    if decide (c = DQUOTE) then Some (rev acc, s')
    else if decide (c = "\"%char) then None
    else read_quoted (c :: acc) s'
  end.

(** A plain scalar ends before a blank followed by ['#']. *)
Fixpoint read_plain (acc : list ascii) (s : list ascii) : list ascii :=
  match s with
  | [] => rev acc
  | c :: s' =>
    if is_blank c && only_comment s then rev acc
    else read_plain (c :: acc) s'
  end.

(** A plain key ends at a colon that is followed by a blank or by the end
    of the line. *)
Fixpoint read_key (acc : list ascii) (s : list ascii)
    : option (list ascii * list ascii) :=
  match s with
  | [] => None
  | c :: s' =>
    if decide (c = ":"%char) then
      match s' with
      | [] => Some (rev acc, [])
      | d :: _ => if is_blank d then Some (rev acc, s')
                  else read_key (c :: acc) s'
      end
    else read_key (c :: acc) s'
  end.

(** Characters a plain scalar of the fragment does not contain. *)
Definition special (c : ascii) : bool :=
  bool_decide (c ∈ [DQUOTE; "'"; "#"; "{"; "}"; "["; "]"; ","; "&"; "*";
                    "!"; "|"; ">"; "%"; "@"; "`"; "\"; TAB]%char).

Definition plain_ok (s : list ascii) : bool :=
  match s with
  | [] => false
  | c :: _ =>
    negb (existsb special s)
    && negb (bool_decide (c ∈ ["-"; "?"; ":"; " "]%char))
  end.

Fixpoint has_colon_blank (s : list ascii) : bool :=
  match s with
  | c :: s' =>
    (bool_decide (c = ":"%char)
     && match s' with [] => true | d :: _ => is_blank d end)
    || has_colon_blank s'
  | [] => false
  end.

Definition is_null_word (s : string) : bool :=
  bool_decide (s ∈ ["~"; "null"; "Null"; "NULL"]%string).

(** The error of the stand-in; [why] is for the reader. *)
Definition parse_error (why : string) : error :=
  errorString "yaml: document not accepted".

(** A byte order mark at the start of the document is skipped. *)
Definition strip_BOM (s : list ascii) : list ascii :=
  match s with
  | "239"%char :: "187"%char :: "191"%char :: s' => s'
  | _ => s
  end.

(** The bytes of the fragment: printable ASCII and the line feed. *)
Definition in_alphabet (c : ascii) : bool :=
  bool_decide (c = LF)
  || ((32 <=? nat_of_ascii c)%nat && (nat_of_ascii c <=? 126)%nat).

(** The merge key. *)
Definition is_merge_word (s : string) : bool :=
  bool_decide (s = "<<"%string).

Definition scan_rhs (s : list ascii) : result rhs :=
  let s := drop_blank s in
  if only_comment s then Ok RNone
  else match s with
  | "{"%char :: "}"%char :: s' =>
    if line_ends s' then Ok REmptyMap
    else Err (parse_error "flow mappings are outside the fragment")
  | c :: s' =>
    if decide (c = DQUOTE) then
      match read_quoted [] s' with
      | Some (v, after) =>
        if line_ends after then Ok (RScalar (string_of_list_ascii v))
        else Err (parse_error "did not find expected key")
      | None => Err (parse_error "found unexpected end of stream")
      end
    else
      let v := trim_right (read_plain [] s) in
      if plain_ok v && negb (has_colon_blank v)
         && negb (is_merge_word (string_of_list_ascii v)) then
        let v := string_of_list_ascii v in
        Ok (if is_null_word v then RNone else RScalar v)
      else Err (parse_error "scalar outside the fragment")
  | [] => Ok RNone
  end.

Definition scan_key (s : list ascii) : result (string * list ascii) :=
  match s with
  | c :: s' =>
    if decide (c = DQUOTE) then
      match read_quoted [] s' with
      | Some (k, ":"%char :: after) =>
        if line_ends after then Ok (string_of_list_ascii k, after)
        else match after with
             | d :: _ => if is_blank d then Ok (string_of_list_ascii k, after)
                         else Err (parse_error "did not find expected key")
             | [] => Ok (string_of_list_ascii k, after)
             end
      | _ => Err (parse_error "could not find expected ':'")
      end
    else
      match read_key [] s with
      | Some (k, after) =>
        if plain_ok k && negb (bool_decide (last k = Some " "%char))
           && negb (is_null_word (string_of_list_ascii k))
           && negb (is_merge_word (string_of_list_ascii k)) then
          Ok (string_of_list_ascii k, after)
        else Err (parse_error "key outside the fragment")
      | None => Err (parse_error "could not find expected ':'")
      end
  | [] => Err (parse_error "could not find expected ':'")
  end.

(** One line of the file: [Ok None] for a blank or comment line. *)
Definition scan_line (s : list ascii) : result (option line) :=
  if only_comment s then Ok None
  else
    let n := count_spaces s in
    match scan_key (drop n s) with
    | Err e => Err e
    | Ok (k, after) =>
      match scan_rhs after with
      | Err e => Err e
      | Ok r => Ok (Some {| indent := n; key := k; rest := r |})
      end
    end.

Fixpoint scan_lines (ls : list (list ascii)) : result (list line) :=
  match ls with
  | [] => Ok []
  | l :: ls' =>
    match scan_line l with
    | Err e => Err e
    | Ok o =>
      match scan_lines ls' with
      | Err e => Err e
      | Ok more => Ok (from_option (fun x => x :: more) more o)
      end
    end
  end.

Definition deeper (n : nat) (ls : list line) : bool :=
  match ls with
  | l :: _ => (n <? indent l)%nat
  | [] => false
  end.

(** What [parse_block] answers when its fuel is used up; with the fuel
    [parse] gives it that does not happen. *)
Definition out_of_fuel : error := errorString "yaml: out of fuel".

(** The block mapping at indentation [n] at the head of [ls], and the
    lines after it. *)
Fixpoint parse_block (fuel : nat) (n : nat) (ls : list line)
    : result (list (string * value) * list line) :=
  match fuel with
  | O => Err out_of_fuel
  | S fuel' =>
    match ls with
    | [] => Ok ([], [])
    | l :: ls' =>
      if (indent l <? n)%nat then Ok ([], ls)
      else if (n <? indent l)%nat then
        Err (parse_error "did not find expected key")
      else
        let continue (v : value) (ls1 : list line) :=
          match parse_block fuel' n ls1 with
          | Err e => Err e
          | Ok (more, rem) => Ok ((key l, v) :: more, rem)
          end in
        match rest l with
        | RScalar s =>
          if deeper n ls' then
            Err (parse_error "mapping values are not allowed in this context")
          else continue (Scalar s) ls'
        | REmptyMap =>
          if deeper n ls' then
            Err (parse_error "did not find expected key")
          else continue (Mapping []) ls'
        | RNone =>
          match ls' with
          | l2 :: _ =>
            if (n <? indent l2)%nat then
              match parse_block fuel' (indent l2) ls' with
              | Err e => Err e
              | Ok (sub, rem1) => continue (Mapping sub) rem1
              end
            else continue Null ls'
          | [] => continue Null ls'
          end
        end
    end
  end.

Definition parse (data : string) : result value :=
  let bytes := strip_BOM (list_ascii_of_string data) in
  if negb (forallb in_alphabet bytes) then
    Err (parse_error "bytes outside the fragment")
  else
  match scan_lines (split_lines [] bytes) with
  | Err e => Err e
  | Ok [] => Ok Null
  | Ok ((l :: _) as ls) =>
    match parse_block (S (length ls)) (indent l) ls with
    | Err e => Err e
    | Ok (entries, []) => Ok (Mapping entries)
    | Ok (_, _ :: _) => Err (parse_error "did not find expected key")
    end
  end.

(** *** Decoding into the Go types, as [yaml.Unmarshal] does for the
    struct tags of [main.go]: unknown keys are ignored, a null leaves the
    zero value, a repeated key is an error. *)

Definition unique_keys {A} (entries : list (string * A)) : bool :=
  bool_decide (NoDup entries.*1).

Definition field (name : string) (entries : list (string * value)) : value :=
  default Null (snd <$> find (fun e => bool_decide (fst e = name)) entries).

Definition decode_string (v : value) : result string :=
  match v with
  | Null => Ok ""%string
  | Scalar s => Ok s
  | Mapping _ => Err (parse_error "cannot unmarshal !!map into string")
  end.

Fixpoint decode_entries {A} (dec : value -> result A)
    (entries : list (string * value)) : result (list (string * A)) :=
  match entries with
  | [] => Ok []
  | (k, v) :: es =>
    match dec v with
    | Err e => Err e
    | Ok a =>
      match decode_entries dec es with
      | Err e => Err e
      | Ok more => Ok ((k, a) :: more)
      end
    end
  end.

(** [None] is the nil map. *)
Definition decode_map {A} (dec : value -> result A) (v : value)
    : result (option (gmap string A)) :=
  match v with
  | Null => Ok None
  | Scalar _ => Err (parse_error "cannot unmarshal !!str into map")
  | Mapping entries =>
    if unique_keys entries then
      match decode_entries dec entries with
      | Err e => Err e
      | Ok kvs => Ok (Some (list_to_map kvs))
      end
    else Err (parse_error "mapping key already defined")
  end.

Definition decode_Environment (v : value) : result Environment :=
  match v with
  | Null => Ok {| Target := ""; Variables := ∅ |}
  | Scalar _ => Err (parse_error "cannot unmarshal !!str into main.Environment")
  | Mapping entries =>
    if unique_keys entries then
      match decode_string (field "target" entries) with
      | Err e => Err e
      | Ok t =>
        match decode_map decode_string (field "environment" entries) with
        | Err e => Err e
        | Ok vars => Ok {| Target := t; Variables := default ∅ vars |}
        end
      end
    else Err (parse_error "mapping key already defined")
  end.

Definition decode_Config (v : value) : result Config :=
  match v with
  | Null => Ok {| Environments := None |}
  | Scalar _ => Err (parse_error "cannot unmarshal !!str into main.Config")
  | Mapping entries =>
    if unique_keys entries then
      match decode_map decode_Environment (field "environments" entries) with
      | Err e => Err e
      | Ok envs => Ok {| Environments := envs |}
      end
    else Err (parse_error "mapping key already defined")
  end.

Definition Unmarshal (data : string) : result Config :=
  match parse data with
  | Err e => Err e
  | Ok v => decode_Config v
  end.

End Yaml.

(** ** [main.go] *)

Definition quoted (s : string) : string :=
  String Yaml.DQUOTE s +:+ String Yaml.DQUOTE "".

Definition unlines (ls : list string) : string :=
  foldr (fun l acc => l +:+ String Yaml.LF acc) "" ls.

(** The raw string literal [defaultConfig] of [createDefaultConfig], line
    by line. *)
Definition defaultConfig : string := unlines [
  "# CS Switcher Configuration File";
  "# Define your environment configurations here";
  "";
  "environments:";
  "  # GLM environment configuration for Claude Code";
  "  glm:";
  "    target: " +:+ quoted "claude" +:+ "  # Claude Code command";
  "    environment:";
  "      CLAUDE_CODE_DISABLE_NONESSENTIAL_TRAFFIC: " +:+ quoted "1";
  "      ANTHROPIC_BASE_URL: " +:+ quoted "https://open.bigmodel.cn/api/anthropic";
  "      ANTHROPIC_AUTH_TOKEN: " +:+ quoted "your-glm-api-key";
  "      ANTHROPIC_MODEL: " +:+ quoted "glm-4.6";
  "      ANTHROPIC_SMALL_FAST_MODEL: " +:+ quoted "glm-4.5-air";
  "      ANTHROPIC_DEFAULT_SONNET_MODEL: " +:+ quoted "glm-4.6";
  "      ANTHROPIC_DEFAULT_OPUS_MODEL: " +:+ quoted "glm-4.6";
  "      ANTHROPIC_DEFAULT_HAIKU_MODEL: " +:+ quoted "glm-4.5-air";
  "      API_TIMEOUT_MS: " +:+ quoted "3000000";
  "";
  "# Add more environments as needed";
  "# Example:";
  "#   myenv:";
  "#     target: " +:+ quoted "node server.js";
  "#     environment:";
  "#       PORT: " +:+ quoted "3000";
  "#       NODE_ENV: " +:+ quoted "production"
]%string.
Arguments defaultConfig : simpl never.

(** The path [GetConfigPath] resolves for the home directory [h]. *)
Definition configDirOf (h : path) : path := filepath_Join h ".cs".
Definition configPathOf (h : path) : path :=
  filepath_Join (configDirOf h) "config.yaml".

(** ** States and files to run the model on *)

(** One admissible order for [range]: the order in which the map lists
    its entries. *)
Definition range_in_map_order (V : Type) (m : gmap string V)
    : list (string * V) :=
  map_to_list m.

Definition home_user : path := ["home"; "user"]%string.

Definition fs_home : gmap path node :=
  <[home_user := Dir]> (<[["home"%string] := Dir]> ∅).

(** A child that always exits with status 0; every name is found, or
    none is. *)
Definition child_succeeds (c : Cmd) (environ : list string) : option error :=
  None.
Definition lookPath_finds (name : string) : option error := None.
Definition lookPath_fails (name : string) : option error :=
  Some (errorString ("exec: " +:+ quoted name
                     +:+ ": executable file not found in $PATH")).

Definition environ_user : list string :=
  ["HOME=/home/user"; "PATH=/usr/bin"; "PORT=80"]%string.

(** A first run: the home directory is there, the configuration is not. *)
Definition os_first_run : OS :=
  {| os_home := Some home_user; os_environ := environ_user;
     os_fs := fs_home; os_refusal := accepts_changes;
     os_lookPath := lookPath_finds; os_spawn := child_succeeds;
     os_trace := [] |}.

(** The same on a file system that refuses every change. *)
Definition os_first_run_readonly : OS :=
  {| os_home := Some home_user; os_environ := environ_user;
     os_fs := fs_home; os_refusal := refuses_changes;
     os_lookPath := lookPath_finds; os_spawn := child_succeeds;
     os_trace := [] |}.

(** The same where directories can be made and no file written. *)
Definition os_first_run_no_file : OS :=
  {| os_home := Some home_user; os_environ := environ_user;
     os_fs := fs_home; os_refusal := refuses_files;
     os_lookPath := lookPath_finds; os_spawn := child_succeeds;
     os_trace := [] |}.

(** No home directory is known. *)
Definition os_no_home : OS :=
  {| os_home := None; os_environ := []; os_fs := fs_home;
     os_refusal := accepts_changes; os_lookPath := lookPath_finds;
     os_spawn := child_succeeds; os_trace := [] |}.

(** The configuration file is there and holds [data]. *)
Definition os_with_config (data : string) : OS :=
  {| os_home := Some home_user; os_environ := environ_user;
     os_fs := <[configPathOf home_user := File data]>
                (<[configDirOf home_user := Dir]> fs_home);
     os_refusal := accepts_changes; os_lookPath := lookPath_finds;
     os_spawn := child_succeeds; os_trace := [] |}.

(** The same, where no command can be started. *)
Definition os_without_commands (data : string) : OS :=
  {| os_home := Some home_user; os_environ := environ_user;
     os_fs := os_fs (os_with_config data);
     os_refusal := accepts_changes; os_lookPath := lookPath_fails;
     os_spawn := child_succeeds; os_trace := [] |}.

(** The two environments of the documented scenario. *)
Definition two_environments : string := unlines [
  "environments:";
  "  testenv:";
  "    target: echo hello";
  "    environment:";
  "      TEST_VAR: test_value";
  "  another:";
  "    target: pwd";
  "    environment:";
  "      PATH: /custom/path"
]%string.

(** What the default file parses to. *)
Definition glm_default : Environment :=
  {| Target := "claude";
     Variables := list_to_map [
       ("CLAUDE_CODE_DISABLE_NONESSENTIAL_TRAFFIC", "1");
       ("ANTHROPIC_BASE_URL", "https://open.bigmodel.cn/api/anthropic");
       ("ANTHROPIC_AUTH_TOKEN", "your-glm-api-key");
       ("ANTHROPIC_MODEL", "glm-4.6");
       ("ANTHROPIC_SMALL_FAST_MODEL", "glm-4.5-air");
       ("ANTHROPIC_DEFAULT_SONNET_MODEL", "glm-4.6");
       ("ANTHROPIC_DEFAULT_OPUS_MODEL", "glm-4.6");
       ("ANTHROPIC_DEFAULT_HAIKU_MODEL", "glm-4.5-air");
       ("API_TIMEOUT_MS", "3000000")
     ]%string |}.

Definition default_Config : Config :=
  {| Environments := Some {[ "glm"%string := glm_default ]} |}.

(** The default file defines a single environment [glm] with [n]
    variables. *)
Definition default_variable_count (n : nat) : Prop :=
  exists e,
    Yaml.Unmarshal defaultConfig
    = Ok {| Environments := Some {[ "glm"%string := e ]} |}
    /\ size (Variables e) = n.


(** An environment with a value that holds a NUL byte. *)
Definition env_NUL_value : Environment :=
  {| Target := "printenv";
     Variables := {[ "TOKEN"%string := String "000"%char "x" ]} |}.

(** An environment that sets one new variable and one inherited one. *)
Definition env_node : Environment :=
  {| Target := "node server.js";
     Variables := list_to_map [("NODE_ENV", "production"); ("PORT", "3000")]%string |}.

(** Another admissible order for [range]: the first one backwards. *)
Definition range_reversed (V : Type) (m : gmap string V)
    : list (string * V) :=
  rev (map_to_list m).

(** Two variables whose entries, ["A=B=x"] and ["A=B=y"], name the same
    variable. *)
Definition env_same_entry_name : Environment :=
  {| Target := "printenv";
     Variables := list_to_map [("A", "B=x"); ("A=B", "y")]%string |}.

(** A command line with uneven white space: two blanks, a tab, a blank at
    the end. *)
Definition node_parts : list (string * string) :=
  [(""%string, "node"%string); ("  "%string, "server.js"%string);
   (String "009"%char "", "--port=80"%string)].

(** The same words with one blank between them. *)
Definition node_parts_tidy : list (string * string) :=
  [(""%string, "node"%string); (" "%string, "server.js"%string);
   (" "%string, "--port=80"%string)].

(** A file that is not a configuration. *)
Definition not_a_mapping : string := "environments: oops".

Section Program.

(** [yaml.Unmarshal(data, &config)] into a fresh [Config]. *)
Variable yaml_Unmarshal : string -> result Config.

(** The order in which [for k, v := range m] visits a map.  Go leaves it
    unspecified; all that is known is that every entry comes once. *)
Variable map_range : forall V : Type, gmap string V -> list (string * V).
Hypothesis map_range_perm :
  forall (V : Type) (m : gmap string V), map_range V m ≡ₚ map_to_list m.

(** [GetConfigDir] returns the user's cs config directory. *)
Definition GetConfigDir (o : OS) : result path :=
  match os_UserHomeDir o with
  | Err err => Err (wrapError "failed to get user home directory: " err)
  | Ok homeDir =>
    let configDir := filepath_Join homeDir ".cs" in
    Ok configDir
  end.

(** [GetConfigPath] returns the full path to the config file. *)
Definition GetConfigPath (o : OS) : result path :=
  match GetConfigDir o with
  | Err err => Err err
  | Ok configDir => Ok (filepath_Join configDir "config.yaml")
  end.

(** [createDefaultConfig] creates a default configuration file. *)
Definition createDefaultConfig (configPath : path) (o : OS)
    : option error * OS :=
  let configDir := filepath_Dir configPath in
  match os_MkdirAll configDir o with
  | (Some err, o1) =>
    (Some (wrapError "failed to create config directory: " err), o1)
  | (None, o1) => os_WriteFile configPath defaultConfig o1
  end.

(** [LoadConfig] loads the configuration from file or creates a default
    one. *)
Definition LoadConfig (o : OS) : result Config * OS :=
  match GetConfigPath o with
  | Err err => (Err err, o)
  | Ok configPath =>
    let '(err, o1) := os_Stat configPath o in
    let created :=
      if os_IsNotExist err then
        match createDefaultConfig configPath o1 with
        | (Some err, o2) =>
          (Some (wrapError "failed to create default config: " err), o2)
        | (None, o2) =>
          let o3 := fmt_Println ("Created default configuration file: "
                                 +:+ path_string configPath) o2 in
          (None,
           fmt_Println
             "Please edit the file to add your environment configurations."
             o3)
        end
      else (None, o1) in
    match created with
    | (Some err, o2) => (Err err, o2)
    | (None, o2) =>
      match os_ReadFile configPath o2 with
      | (Err err, o3) =>
        (Err (wrapError "failed to read config file: " err), o3)
      | (Ok data, o3) =>
        match yaml_Unmarshal data with
        | Err err => (Err (wrapError "failed to parse config file: " err), o3)
        | Ok config =>
          let config :=
            match Environments config with
            | None => {| Environments := Some ∅ |}
            | Some _ => config
            end in
          (Ok config, o3)
        end
      end
    end
  end.

(** The two errors [Run] reports before it starts anything. *)
Definition EmptyTarget : error := errorString "target command is empty".
Definition InvalidTarget : error := errorString "invalid target command".

(** [fmt.Sprintf("%s=%s", key, value)]. *)
Definition Sprintf_kv (key value : string) : string :=
  key +:+ "=" +:+ value.

(** The loop [for key, value := range envConfig.Environment] of [Run]. *)
Definition append_vars (env : list string) (vars : list (string * string))
    : list string :=
  foldl (fun env kv => env ++ [Sprintf_kv (fst kv) (snd kv)]) env vars.

(** The command [Run] builds for a target with at least one field. *)
Definition Run_cmd (envConfig : Environment) (command : string)
    (args : list string) (o : OS) : Cmd :=
  let cmd := exec_Command command args in
  let cmd :=
    if (0 <? size (Variables envConfig))%nat then
      let env := os_Environ o in
      let env := append_vars env (map_range _ (Variables envConfig)) in
      set_Env env cmd
    else cmd in
  inherit_stdio cmd.

(** [Run] executes the target command with the specified environment
    variables. *)
Definition Run (envConfig : Environment) (o : OS) : option error * OS :=
  if decide (Target envConfig = ""%string) then (Some EmptyTarget, o)
  else
    let parts := Strings.Fields (Target envConfig) in
    match parts with
    | [] => (Some InvalidTarget, o)
    | command :: args => Cmd_Run (Run_cmd envConfig command args o) o
    end.

(** [lookupEnvironment]: the index expression [cfg.Environments[environment]] of
    [main], which also works on a nil map. *)
Definition lookupEnvironment (cfg : Config) (name : string) : option Environment :=
  default ∅ (Environments cfg) !! name.

(** [listNames]: the names the loop of [printAvailableEnvironments]
    visits, in the order it visits them. *)
Definition listNames (cfg : Config) : list string :=
  (map_range _ (default ∅ (Environments cfg))).*1.

(** [printAvailableEnvironments]. *)
Definition printAvailableEnvironments (o : OS) : OS :=
  match LoadConfig o with
  | (Err err, o1) =>
    fmt_Println ("  (Unable to load config: " +:+ Error err +:+ ")") o1
  | (Ok cfg, o1) =>
    foldl (fun o name => fmt_Println ("  " +:+ name) o) o1 (listNames cfg)
  end.

(** [main]: [args] is [os.Args], the program name first.  The result is
    the exit status of the process. *)
Definition main (args : list string) (o : OS) : Z * OS :=
  match args with
  | [] | [_] =>
    let o := fmt_Println "Usage: cs <environment>" o in
    let o := fmt_Println "Available environments:" o in
    let o := printAvailableEnvironments o in
    (1, o)
  | _ :: environment :: _ =>
    match LoadConfig o with
    | (Err err, o1) =>
      (1, log_Fatalf ("Failed to load configuration: " +:+ Error err) o1)
    | (Ok cfg, o1) =>
      match lookupEnvironment cfg environment with
      | None =>
        let o2 := fmt_Println ("Environment '" +:+ environment
                               +:+ "' not found.") o1 in
        let o2 := fmt_Println "Available environments:" o2 in
        let o2 := printAvailableEnvironments o2 in
        (1, o2)
      | Some envConfig =>
        match Run envConfig o1 with
        | (Some err, o2) =>
          (1, log_Fatalf ("Failed to run command: " +:+ Error err) o2)
        | (None, o2) => (0, o2)
        end
      end
    end
  end.

(** ** Notions used in the statements *)

(** The runes of a Go string. *)
Definition runes (s : string) : list Strings.rune :=
  Utf8.range (list_ascii_of_string s).

(** The bytes a sequence of runes was decoded from, as a string. *)
Definition rune_bytes (rs : list Strings.rune) : string :=
  string_of_list_ascii (concat (snd <$> rs)).

(** The same, as bytes. *)
Definition token_bytes (tok : list Strings.rune) : list ascii :=
  concat (snd <$> tok).

(** A target is whitespace-only when every rune of it is white space. *)
Definition whitespace_only (s : string) : Prop :=
  Forall (fun x => Strings.is_space x = true) (runes s).

(** The six white space characters of ASCII: blank, tab, line feed,
    vertical tab, form feed, carriage return. *)
Definition ascii_blank (c : ascii) : Prop :=
  c ∈ [" "; "009"; "010"; "011"; "012"; "013"]%char.

(** Splitting on runs of white space, said without an algorithm:
    [split_on_space rs toks] holds when [rs] is white space, then the
    first token, then white space, and so on, every token being a
    non-empty run of runes that are not white space and that stops only
    at white space or at the end. *)
Inductive split_on_space : list Strings.rune -> list (list Strings.rune) -> Prop :=
| split_done ws :
    Forall (fun x => Strings.is_space x = true) ws ->
    split_on_space ws []
| split_token ws tok rest toks :
    Forall (fun x => Strings.is_space x = true) ws ->
    tok <> [] ->
    Forall (fun x => Strings.is_space x = false) tok ->
    (rest = [] \/ exists x rest', rest = x :: rest' /\ Strings.is_space x = true) ->
    split_on_space rest toks ->
    split_on_space (ws ++ tok ++ rest) (tok :: toks).


(** A variable name that can be told from its value in ["name=value"]. *)
Definition plain_name (k : string) : Prop :=
  "="%char ∉ list_ascii_of_string k.

#[global] Instance plain_name_dec (k : string) : Decision (plain_name k).
Proof. unfold plain_name. apply _. Defined.

(** The state [o] after the events [evs], with the files now [fs]. *)
Definition evolves (o : OS) (fs : gmap path node) (evs : list event) : OS :=
  {| os_home := os_home o; os_environ := os_environ o; os_fs := fs;
     os_refusal := os_refusal o; os_lookPath := os_lookPath o;
     os_spawn := os_spawn o;
     os_trace := os_trace o ++ evs |}.

(** What [LoadConfig] makes of the outcome of reading the file. *)
Definition decode_loaded (r : result string) : result Config :=
  match r with
  | Err err => Err (wrapError "failed to read config file: " err)
  | Ok data =>
    match yaml_Unmarshal data with
    | Err err => Err (wrapError "failed to parse config file: " err)
    | Ok config =>
      Ok match Environments config with
         | None => {| Environments := Some ∅ |}
         | Some _ => config
         end
    end
  end.

(** The file system once the default file has been created under the
    home directory [h]. *)
Definition with_default_config (fs : gmap path node) (h : path)
    : gmap path node :=
  <[configPathOf h := File defaultConfig]> (with_dirs fs (configDirOf h)).

(** A creation that the file system refuses.  [dir_made]: the directory
    is there when the file is to be written, because it was or because it
    could be made. *)
Definition dir_made (o : OS) (h : path) : bool :=
  forallb (fun q => is_dir (fs_node (os_fs o) q)) (prefixes (configDirOf h))
  || negb (os_no_mkdir o).

(** The error [createDefaultConfig] then returns: that of the write, or,
    wrapped, that of making the directory. *)
Definition refused_creation (o : OS) (h : path) : error :=
  if dir_made o h then PathError "open" (configPathOf h) (os_errno o)
  else
    wrapError "failed to create config directory: "
      (PathError "mkdir"
         (first_where (fun q => negb (is_dir (fs_node (os_fs o) q)))
                      (prefixes (configDirOf h)) (configDirOf h))
         EROFS).

(** The files it leaves, and the calls it makes after [os.Stat]. *)
Definition refused_files (o : OS) (h : path) : gmap path node :=
  if dir_made o h then with_dirs (os_fs o) (configDirOf h) else os_fs o.

Definition refused_calls (o : OS) (h : path) : list event :=
  EvMkdirAll (configDirOf h)
  :: (if dir_made o h then [EvWriteFile (configPathOf h) defaultConfig]
      else []).

(** The two lines [LoadConfig] prints after creating the file. *)
Definition created_notice (configPath : path) : list event :=
  [EvStdout ("Created default configuration file: "
             +:+ path_string configPath);
   EvStdout "Please edit the file to add your environment configurations."].

(** The events that change the file system. *)
Definition is_write (e : event) : bool :=
  match e with
  | EvMkdirAll _ | EvWriteFile _ _ => true
  | _ => false
  end.

(** What goes to standard error; only [log.Fatalf] writes there. *)
Definition is_stderr (e : event) : bool :=
  match e with
  | EvStderr _ => true
  | _ => false
  end.

(** The first two lines of the usage message, and of the message for an
    unknown name. *)
Definition usage_lines : list event :=
  [EvStdout "Usage: cs <environment>"; EvStdout "Available environments:"].

Definition not_found_lines (environment : string) : list event :=
  [EvStdout ("Environment '" +:+ environment +:+ "' not found.");
   EvStdout "Available environments:"].

(** The line printed in place of the names when the configuration cannot
    be loaded. *)
Definition unable_note (err : error) : event :=
  EvStdout ("  (Unable to load config: " +:+ Error err +:+ ")").

(** The lines [printAvailableEnvironments] prints for a loaded
    configuration. *)
Definition name_lines (cfg : Config) : list event :=
  (fun name => EvStdout ("  " +:+ name)) <$> listNames cfg.

(** ** Decoding and splitting *)

Lemma first_lead_size b sz lo hi :
  Utf8.first b = Utf8.lead sz lo hi -> (2 <= sz <= 4)%nat.
Proof.
  unfold Utf8.first.
  repeat match goal with
         | |- context [if ?c then _ else _] => destruct c
         end; intros H; inversion H; subst; lia.
Qed.

Lemma DecodeRune_width p :
  p <> [] ->
  (1 <= snd (Utf8.DecodeRune p) <= length p)%nat.
Proof.
  destruct p as [|c0 p']; [congruence|]. intros _.
  unfold Utf8.DecodeRune.
  destruct (Utf8.first (byte_val c0)) as [| |sz lo hi] eqn:Hf;
    cbn [snd length]; try lia.
  apply first_lead_size in Hf.
  repeat match goal with
         | |- context [if ?c then _ else _] =>
           let E := fresh "E" in destruct c eqn:E
         end; cbn [snd length] in *;
    repeat match goal with
           | H : (_ <? _)%nat = false |- _ => apply Nat.ltb_ge in H
           | H : (_ <=? _)%nat = false |- _ => apply Nat.leb_gt in H
           | H : (_ <=? _)%nat = true |- _ => apply Nat.leb_le in H
           end; cbn [length] in *; lia.
Qed.

(** The fuel of [Utf8.range] is enough: the runes cover the whole string. *)
Lemma range_fuel_bytes fuel p :
  (length p <= fuel)%nat ->
  concat (snd <$> Utf8.range_fuel fuel p) = p.
Proof.
  revert p. induction fuel as [|fuel IH]; intros p Hlen.
  - destruct p; [reflexivity | cbn in Hlen; lia].
  - destruct p as [|c p']; [reflexivity|].
    cbn [Utf8.range_fuel].
    pose proof (DecodeRune_width (c :: p') ltac:(congruence)) as Hw.
    destruct (Utf8.DecodeRune (c :: p')) as [r w]. cbn [snd] in Hw.
    cbn [fmap list_fmap concat snd].
    change (list_fmap _ _ snd ?l) with (snd <$> l).
    rewrite IH.
    + apply take_drop.
    + rewrite length_drop. cbn [length] in *. lia.
Qed.

Lemma range_bytes p : concat (snd <$> Utf8.range p) = p.
Proof. apply range_fuel_bytes. lia. Qed.

Lemma range_fuel_nonempty fuel p :
  Forall (fun x : Strings.rune => snd x <> []) (Utf8.range_fuel fuel p).
Proof.
  revert p. induction fuel as [|fuel IH]; intros p; [constructor|].
  destruct p as [|c p']; [constructor|].
  cbn [Utf8.range_fuel].
  pose proof (DecodeRune_width (c :: p') ltac:(congruence)) as Hw.
  destruct (Utf8.DecodeRune (c :: p')) as [r w]. cbn [snd] in Hw.
  constructor; [|apply IH].
  cbn [snd]. destruct w; [lia|]. cbn. congruence.
Qed.

Lemma runes_bytes s : rune_bytes (runes s) = s.
Proof.
  unfold rune_bytes, runes. rewrite range_bytes.
  apply string_of_list_ascii_of_string.
Qed.

Lemma first_ascii b : b < 0x80 -> Utf8.first b = Utf8.as_ascii.
Proof.
  intros Hb. unfold Utf8.first.
  destruct (b <? 0x80) eqn:E; [reflexivity|].
  apply Z.ltb_ge in E. lia.
Qed.

(** A string of ASCII bytes has one rune per byte. *)
Lemma range_fuel_ascii fuel (p : list ascii) :
  (length p <= fuel)%nat ->
  Forall (fun c => byte_val c < 0x80) p ->
  Utf8.range_fuel fuel p = (fun c => (byte_val c, [c])) <$> p.
Proof.
  revert p. induction fuel as [|fuel IH]; intros p Hlen Hp.
  - destruct p; [reflexivity | cbn in Hlen; lia].
  - destruct p as [|c p']; [reflexivity|].
    apply Forall_cons in Hp as [Hc Hp'].
    cbn [Utf8.range_fuel Utf8.DecodeRune].
    rewrite (first_ascii _ Hc). cbn [take drop fmap list_fmap].
    f_equal. apply IH; [cbn in Hlen; lia | exact Hp'].
Qed.

Lemma ascii_blank_is_space c :
  ascii_blank c -> byte_val c < 0x80 /\ IsSpace (byte_val c) = true.
Proof.
  unfold ascii_blank. intros Hc.
  repeat (apply elem_of_cons in Hc as [-> | Hc]; [vm_compute; auto|]).
  inversion Hc.
Qed.

(** A string of ASCII white space is whitespace-only. *)
Lemma ascii_blanks_whitespace_only s :
  Forall ascii_blank (list_ascii_of_string s) -> whitespace_only s.
Proof.
  intros Hs. unfold whitespace_only, runes, Utf8.range.
  rewrite range_fuel_ascii; [|lia|].
  - apply Forall_fmap. eapply Forall_impl; [exact Hs|].
    intros c Hc. apply ascii_blank_is_space in Hc as [_ Hc]. exact Hc.
  - eapply Forall_impl; [exact Hs|].
    intros c Hc. apply ascii_blank_is_space in Hc as [Hc _]. exact Hc.
Qed.

(** ** The loop of [strings.FieldsFunc] *)

Lemma split_on_space_cons x rs toks :
  Strings.is_space x = true ->
  split_on_space rs toks -> split_on_space (x :: rs) toks.
Proof.
  intros Hx H. destruct H as [ws Hws | ws tok rest toks Hws Hne Htok Hrest H].
  - apply split_done. constructor; assumption.
  - change (x :: ws ++ tok ++ rest) with ((x :: ws) ++ tok ++ rest).
    apply split_token; try assumption. constructor; assumption.
Qed.

(** Between fields the loop yields the split of what is left; inside a
    field [pre] it yields the split of [pre] followed by what is left. *)
Lemma FieldsFunc_loop_split rs :
  (exists toks, split_on_space rs toks /\
     Strings.FieldsFunc_loop Strings.is_space None rs = token_bytes <$> toks)
  /\
  (forall pre, pre <> [] ->
     Forall (fun x => Strings.is_space x = false) pre ->
     exists toks, split_on_space (pre ++ rs) toks /\
       Strings.FieldsFunc_loop Strings.is_space (Some (token_bytes pre)) rs
       = token_bytes <$> toks).
Proof.
  induction rs as [|x rs [IHnone IHsome]].
  - split.
    + exists []. split; [apply split_done; constructor | reflexivity].
    + intros pre Hne Hpre. exists [pre]. split; [|reflexivity].
      rewrite app_nil_r.
      replace pre with ([] ++ pre ++ []) at 1 by (cbn; apply app_nil_r).
      apply split_token; auto.
      apply split_done. constructor.
  - split.
    + cbn [Strings.FieldsFunc_loop].
      destruct (Strings.is_space x) eqn:Hx.
      * destruct IHnone as (toks & Hsplit & Heq).
        exists toks. split; [apply split_on_space_cons; assumption | exact Heq].
      * destruct (IHsome [x]) as (toks & Hsplit & Heq);
          [congruence | repeat constructor; assumption |].
        exists toks. split; [exact Hsplit|].
        rewrite <- Heq. unfold token_bytes. cbn. rewrite app_nil_r. reflexivity.
    + intros pre Hne Hpre. cbn [Strings.FieldsFunc_loop].
      destruct (Strings.is_space x) eqn:Hx.
      * destruct IHnone as (toks & Hsplit & Heq).
        exists (pre :: toks). split.
        -- change (pre ++ x :: rs) with ([] ++ pre ++ x :: rs).
           apply split_token; auto.
           ++ right. exists x, rs. auto.
           ++ apply split_on_space_cons; assumption.
        -- cbn. rewrite Heq. reflexivity.
      * destruct (IHsome (pre ++ [x])) as (toks & Hsplit & Heq).
        -- destruct pre; cbn; congruence.
        -- apply Forall_app. split; [assumption | repeat constructor; assumption].
        -- exists toks. split.
           ++ rewrite <- app_assoc in Hsplit. exact Hsplit.
           ++ rewrite <- Heq. cbn [default]. f_equal. f_equal.
              unfold token_bytes. rewrite fmap_app, concat_app. cbn.
              rewrite app_nil_r. reflexivity.
Qed.

(** The loop returns no field exactly when it saw white space only. *)
Lemma FieldsFunc_loop_nil rs :
  Strings.FieldsFunc_loop Strings.is_space None rs = [] <->
  Forall (fun x => Strings.is_space x = true) rs.
Proof.
  assert (Hsome : forall rs t,
             Strings.FieldsFunc_loop Strings.is_space (Some t) rs <> []).
  { clear rs. induction rs as [|x rs IH]; intros t; cbn.
    - congruence.
    - destruct (Strings.is_space x); [congruence | apply IH]. }
  induction rs as [|x rs IH]; cbn.
  - split; [constructor | reflexivity].
  - destruct (Strings.is_space x) eqn:Hx.
    + rewrite IH. split; intros H.
      * constructor; assumption.
      * inversion H; assumption.
    + split; intros H.
      * exfalso. exact (Hsome _ _ H).
      * inversion H; congruence.
Qed.

Lemma Fields_nil_iff s :
  Strings.Fields s = [] <-> whitespace_only s.
Proof.
  unfold Strings.Fields, Strings.FieldsFunc, whitespace_only, runes.
  rewrite <- FieldsFunc_loop_nil.
  split; intros H.
  - apply fmap_nil_inv in H. exact H.
  - rewrite H. reflexivity.
Qed.

Lemma Fields_split s :
  exists toks, split_on_space (runes s) toks /\
               Strings.Fields s = rune_bytes <$> toks.
Proof.
  destruct (FieldsFunc_loop_split (runes s)) as [(toks & Hsplit & Heq) _].
  exists toks. split; [exact Hsplit|].
  unfold Strings.Fields, Strings.FieldsFunc. fold (runes s).
  rewrite Heq. rewrite <- list_fmap_compose. reflexivity.
Qed.

(** A split on white space is determined by the runes: first the two runs
    at the head, then the rest. *)
Lemma token_run_unique (tok tok' rest rest' : list Strings.rune) :
  Forall (fun x => Strings.is_space x = false) tok ->
  Forall (fun x => Strings.is_space x = false) tok' ->
  (rest = [] \/ exists x r, rest = x :: r /\ Strings.is_space x = true) ->
  (rest' = [] \/ exists x r, rest' = x :: r /\ Strings.is_space x = true) ->
  tok ++ rest = tok' ++ rest' ->
  tok = tok' /\ rest = rest'.
Proof.
  revert tok'. induction tok as [|a tok IH]; intros tok' Ht Ht' Hr Hr' Heq.
  - destruct tok' as [|a' tok']; [auto|]. exfalso.
    cbn in Heq. apply Forall_cons in Ht' as [Ha' _].
    destruct Hr as [Hr | (x & r & Hr & Hx)]; rewrite Hr in Heq;
      [discriminate|].
    injection Heq as <- _. congruence.
  - destruct tok' as [|a' tok'].
    + exfalso. cbn in Heq. apply Forall_cons in Ht as [Ha _].
      destruct Hr' as [Hr' | (x & r & Hr' & Hx)]; rewrite Hr' in Heq;
        [discriminate|].
      injection Heq as -> _. congruence.
    + cbn in Heq. inversion Heq; subst.
      inversion Ht; inversion Ht'; subst.
      destruct (IH tok') as [-> ->]; auto.
Qed.

Lemma space_run_unique (ws ws' tok tok' rest rest' : list Strings.rune) :
  Forall (fun x => Strings.is_space x = true) ws ->
  Forall (fun x => Strings.is_space x = true) ws' ->
  tok <> [] -> tok' <> [] ->
  Forall (fun x => Strings.is_space x = false) tok ->
  Forall (fun x => Strings.is_space x = false) tok' ->
  (rest = [] \/ exists x r, rest = x :: r /\ Strings.is_space x = true) ->
  (rest' = [] \/ exists x r, rest' = x :: r /\ Strings.is_space x = true) ->
  ws ++ tok ++ rest = ws' ++ tok' ++ rest' ->
  ws = ws' /\ tok = tok' /\ rest = rest'.
Proof.
  revert ws'. induction ws as [|w ws IH]; intros ws' Hw Hw' Hn Hn' Ht Ht' Hr Hr' Heq.
  - destruct ws' as [|w' ws'].
    + cbn in Heq. destruct (token_run_unique tok tok' rest rest'); auto.
    + exfalso. destruct tok as [|a tok]; [congruence|].
      cbn in Heq. inversion Heq; subst.
      inversion Ht; inversion Hw'; subst. congruence.
  - destruct ws' as [|w' ws'].
    + exfalso. destruct tok' as [|a' tok']; [congruence|].
      cbn in Heq. inversion Heq; subst.
      inversion Ht'; inversion Hw; subst. congruence.
    + cbn in Heq. inversion Heq; subst.
      inversion Hw; inversion Hw'; subst.
      destruct (IH ws') as (-> & -> & ->); auto.
Qed.

Lemma split_on_space_inv rs toks :
  split_on_space rs toks ->
  match toks with
  | [] => Forall (fun x => Strings.is_space x = true) rs
  | tok :: toks' =>
    exists ws rest,
      rs = ws ++ tok ++ rest
      /\ Forall (fun x => Strings.is_space x = true) ws
      /\ tok <> []
      /\ Forall (fun x => Strings.is_space x = false) tok
      /\ (rest = [] \/ exists x r, rest = x :: r /\ Strings.is_space x = true)
      /\ split_on_space rest toks'
  end.
Proof. destruct 1; eauto 10. Qed.

Lemma space_run_no_token (ws ws' tok rest : list Strings.rune) :
  Forall (fun x => Strings.is_space x = true) ws ->
  tok <> [] ->
  Forall (fun x => Strings.is_space x = false) tok ->
  ws = ws' ++ tok ++ rest -> False.
Proof.
  intros Hws Hne Htok ->. destruct tok as [|a tok]; [congruence|].
  apply Forall_app in Hws as [_ Hws].
  apply Forall_app in Hws as [Hws _].
  apply Forall_cons in Hws as [Ha _].
  apply Forall_cons in Htok as [Ha' _]. congruence.
Qed.

Lemma split_on_space_unique rs toks toks' :
  split_on_space rs toks -> split_on_space rs toks' -> toks = toks'.
Proof.
  intros H. revert toks'.
  induction H as [ws Hws | ws tok rest toks Hws Hne Htok Hrest H IH];
    intros toks' H'; apply split_on_space_inv in H'.
  - destruct toks' as [|tok' toks']; [reflexivity|].
    destruct H' as (ws' & rest' & Heq & _ & Hne' & Htok' & _).
    exfalso. eapply space_run_no_token; eauto.
  - destruct toks' as [|tok' toks'].
    + exfalso. eapply space_run_no_token; eauto.
    + destruct H' as (ws' & rest' & Heq & Hws' & Hne' & Htok' & Hrest' & H1).
      destruct (space_run_unique ws ws' tok tok' rest rest') as (-> & -> & ->);
        auto.
      f_equal. apply IH. assumption.
Qed.

(** Every token of a split is a contiguous piece of the runes. *)
Lemma split_on_space_pieces rs toks :
  split_on_space rs toks ->
  Forall (fun tok => exists pre post, rs = pre ++ tok ++ post) toks.
Proof.
  induction 1 as [ws Hws | ws tok rest toks Hws Hne Htok Hrest H IH];
    constructor.
  - exists ws, rest. reflexivity.
  - eapply Forall_impl; [exact IH|].
    intros t (pre & post & ->). exists (ws ++ tok ++ pre), post.
    rewrite <- !app_assoc. reflexivity.
Qed.

Lemma string_of_list_ascii_app (a b : list ascii) :
  string_of_list_ascii (a ++ b)
  = string_of_list_ascii a +:+ string_of_list_ascii b.
Proof.
  induction a as [|c a IH]; [reflexivity|].
  change (String c (string_of_list_ascii (a ++ b))
          = String c (string_of_list_ascii a +:+ string_of_list_ascii b)).
  f_equal. exact IH.
Qed.

Lemma list_ascii_of_string_app (a b : string) :
  list_ascii_of_string (a +:+ b)
  = list_ascii_of_string a ++ list_ascii_of_string b.
Proof.
  induction a as [|c a IH]; [reflexivity|].
  change (c :: list_ascii_of_string (a +:+ b)
          = c :: (list_ascii_of_string a ++ list_ascii_of_string b)).
  f_equal. exact IH.
Qed.

Lemma rune_bytes_app (a b : list Strings.rune) :
  rune_bytes (a ++ b) = rune_bytes a +:+ rune_bytes b.
Proof.
  unfold rune_bytes. rewrite fmap_app, concat_app.
  apply string_of_list_ascii_app.
Qed.

(** The fields of a string are cut out of it unchanged. *)
Lemma Fields_verbatim s :
  Forall (fun a => exists pre post, s = pre +:+ a +:+ post) (Strings.Fields s).
Proof.
  destruct (Fields_split s) as (toks & Hsplit & ->).
  apply split_on_space_pieces in Hsplit.
  apply Forall_fmap. eapply Forall_impl; [exact Hsplit|].
  intros tok (pre & post & Heq). cbn.
  exists (rune_bytes pre), (rune_bytes post).
  rewrite <- !rune_bytes_app, <- Heq. symmetry. apply runes_bytes.
Qed.

Lemma Fields_empty : Strings.Fields "" = [].
Proof. reflexivity. Qed.

(** ** [Run]: validation and tokenization *)

Lemma Run_launch envConfig o command args :
  Strings.Fields (Target envConfig) = command :: args ->
  Run envConfig o = Cmd_Run (Run_cmd envConfig command args o) o.
Proof.
  intros HF. unfold Run.
  destruct (decide (Target envConfig = ""%string)) as [He|_].
  - rewrite He, Fields_empty in HF. discriminate.
  - rewrite HF. reflexivity.
Qed.

Lemma Run_cmd_Path envConfig o command args :
  Path (Run_cmd envConfig command args o) = command.
Proof. unfold Run_cmd. destruct (0 <? _)%nat; reflexivity. Qed.

Lemma Run_cmd_Args envConfig o command args :
  Args (Run_cmd envConfig command args o) = command :: args.
Proof. unfold Run_cmd. destruct (0 <? _)%nat; reflexivity. Qed.

(** C2. [Run] checks the target in a fixed order.  The empty string is
    refused with [EmptyTarget]; a target that is not empty but consists of
    white space only (blanks, tabs and line ends, for one), which is
    exactly when [strings.Fields] returns no field, is refused with
    [InvalidTarget]; the two errors differ; neither
    refusal touches the outside world; and every other target gets as far
    as starting the command built from its fields.  The empty string has
    no field either, so it is the order of the two tests that gives it
    [EmptyTarget]. *)
Theorem Run_validates_target (envConfig : Environment) (o : OS) :
  (Target envConfig = ""%string -> Run envConfig o = (Some EmptyTarget, o))
  /\ (Target envConfig <> ""%string ->
      whitespace_only (Target envConfig) ->
      Run envConfig o = (Some InvalidTarget, o))
  /\ EmptyTarget <> InvalidTarget
  /\ (whitespace_only (Target envConfig)
      <-> Strings.Fields (Target envConfig) = [])
  /\ (Forall ascii_blank (list_ascii_of_string (Target envConfig)) ->
      whitespace_only (Target envConfig))
  /\ Strings.Fields "" = []
  /\ (~ whitespace_only (Target envConfig) ->
      exists command args,
        Strings.Fields (Target envConfig) = command :: args
        /\ Run envConfig o = Cmd_Run (Run_cmd envConfig command args o) o).
Proof.
  repeat split.
  - intros He. unfold Run. rewrite decide_True by assumption. reflexivity.
  - intros Hne Hws. unfold Run. rewrite decide_False by assumption.
    apply Fields_nil_iff in Hws. rewrite Hws. reflexivity.
  - discriminate.
  - apply Fields_nil_iff.
  - apply Fields_nil_iff.
  - apply ascii_blanks_whitespace_only.
  - intros Hws.
    destruct (Strings.Fields (Target envConfig)) as [|command args] eqn:HF.
    + exfalso. apply Hws, Fields_nil_iff, HF.
    + exists command, args. split; [reflexivity|].
      apply Run_launch. exact HF.
Qed.

(** C8. When the target has at least one field, [Run] starts the command
    named by the first field, with the remaining fields, in order, as its
    arguments.  The fields are the target split on runs of white space
    ([split_on_space], which has one solution only), and each field is a
    piece of the target taken as it stands: nothing is expanded, and a
    quote is a character like any other. *)
Theorem Run_tokenizes (envConfig : Environment) (o : OS)
    (command : string) (args : list string) :
  Strings.Fields (Target envConfig) = command :: args ->
  let cmd := Run_cmd envConfig command args o in
  Run envConfig o = Cmd_Run cmd o
  /\ Path cmd = command
  /\ Args cmd = command :: args
  /\ (forall toks, split_on_space (runes (Target envConfig)) toks ->
        command :: args = rune_bytes <$> toks)
  /\ (exists toks, split_on_space (runes (Target envConfig)) toks)
  /\ Forall (fun a => exists pre post, Target envConfig = pre +:+ a +:+ post)
            (command :: args).
Proof.
  intros HF cmd. subst cmd.
  split; [apply Run_launch; exact HF|].
  split; [apply Run_cmd_Path|].
  split; [apply Run_cmd_Args|].
  destruct (Fields_split (Target envConfig)) as (toks0 & Hsplit & Heq).
  split; [|split].
  - intros toks Htoks.
    rewrite (split_on_space_unique _ _ _ Htoks Hsplit), <- Heq, HF. reflexivity.
  - exists toks0. exact Hsplit.
  - rewrite <- HF. apply Fields_verbatim.
Qed.

(** ** [Run]: the environment of the child *)

Lemma IndexByte_app (a b : list ascii) (c : ascii) :
  c ∉ a -> IndexByte (a ++ c :: b) c = Some (length a).
Proof.
  induction a as [|x a IH]; intros Hnot; cbn.
  - rewrite decide_True by reflexivity. reflexivity.
  - rewrite decide_False by (intros ->; apply Hnot; left).
    rewrite IH by (intros Hin; apply Hnot; right; exact Hin).
    reflexivity.
Qed.

Lemma env_entry_Sprintf (k v : string) :
  plain_name k -> env_entry (Sprintf_kv k v) = Some (k, v).
Proof.
  intros Hk. unfold env_entry, Sprintf_kv.
  rewrite list_ascii_of_string_app.
  change (list_ascii_of_string ("=" +:+ v))
    with ("="%char :: list_ascii_of_string v).
  rewrite IndexByte_app by exact Hk.
  rewrite take_app_length.
  replace (drop _ _) with (list_ascii_of_string v).
  - rewrite !string_of_list_ascii_of_string. reflexivity.
  - rewrite cons_middle, app_assoc.
    replace (S (length (list_ascii_of_string k)))
      with (length (list_ascii_of_string k ++ ["="%char]))
      by (rewrite length_app; cbn; lia).
    rewrite drop_app_length. reflexivity.
Qed.

Lemma append_vars_app env vars :
  append_vars env vars
  = env ++ ((fun kv => Sprintf_kv (fst kv) (snd kv)) <$> vars).
Proof.
  revert env. induction vars as [|kv vars IH]; intros env; cbn.
  - rewrite app_nil_r. reflexivity.
  - unfold append_vars in IH. rewrite IH, <- app_assoc. reflexivity.
Qed.

Lemma env_map_app env (vars : list (string * string)) :
  Forall (fun kv => plain_name (fst kv)) vars ->
  env_map (env ++ ((fun kv => Sprintf_kv (fst kv) (snd kv)) <$> vars))
  = foldl (fun m kv => <[fst kv := snd kv]> m) (env_map env) vars.
Proof.
  intros Hvars. unfold env_map at 1. rewrite foldl_app. fold (env_map env).
  generalize (env_map env). induction Hvars as [|[k v] vars Hk _ IH]; intros m.
  - reflexivity.
  - cbn [fmap list_fmap foldl fst snd]. cbn [fst] in Hk.
    rewrite env_entry_Sprintf by exact Hk. apply IH.
Qed.

Lemma foldl_insert_union (vars : list (string * string))
    (base : gmap string string) :
  NoDup vars.*1 ->
  foldl (fun m kv => <[fst kv := snd kv]> m) base vars
  = list_to_map vars ∪ base.
Proof.
  revert base. induction vars as [|[k v] vars IH]; intros base Hnd; cbn.
  - rewrite (left_id_L ∅ (∪)). reflexivity.
  - apply NoDup_cons in Hnd as [Hk Hnd].
    rewrite IH by exact Hnd.
    rewrite <- insert_union_r, insert_union_l; [reflexivity|].
    apply not_elem_of_list_to_map_1. exact Hk.
Qed.

Lemma map_range_keys_NoDup (V : Type) (m : gmap string V) :
  NoDup (map_range V m).*1.
Proof.
  rewrite (map_range_perm V m). apply NoDup_fst_map_to_list.
Qed.

Lemma list_to_map_range (V : Type) (m : gmap string V) :
  list_to_map (map_range V m) = m.
Proof.
  rewrite (list_to_map_proper (map_range V m) (map_to_list m)).
  - apply list_to_map_to_list.
  - apply map_range_keys_NoDup.
  - apply map_range_perm.
Qed.

Lemma Run_cmd_Env_some envConfig o command args :
  Variables envConfig <> ∅ ->
  Env (Run_cmd envConfig command args o)
  = Some (os_Environ o
          ++ ((fun kv => Sprintf_kv (fst kv) (snd kv))
                <$> map_range _ (Variables envConfig))).
Proof.
  intros Hne. unfold Run_cmd.
  destruct (0 <? size (Variables envConfig))%nat eqn:Hs.
  - cbn. rewrite append_vars_app. reflexivity.
  - apply Nat.ltb_ge in Hs. exfalso. apply Hne.
    apply map_size_empty_iff. lia.
Qed.

Lemma Run_cmd_Env_none envConfig o command args :
  Variables envConfig = ∅ ->
  Env (Run_cmd envConfig command args o) = None.
Proof.
  intros He. unfold Run_cmd. rewrite He, map_size_empty. reflexivity.
Qed.

(** ** What [os/exec] makes of the list *)

(** The name an entry with the key [k] defines: an entry that begins with
    ['='] defines the variable with the empty name. *)
Definition key_name (k : string) : string :=
  match k with
  | String c _ => if decide (c = "="%char) then ""%string else k
  | EmptyString => ""%string
  end.

Lemma dedup_key_name kv k :
  dedup_key kv = Some k ->
  exists v, env_entry kv = Some (key_name k, v).
Proof.
  unfold dedup_key, env_entry.
  destruct (list_ascii_of_string kv) as [|c b]; [discriminate|].
  cbn [IndexByte]. destruct (decide (c = "="%char)) as [->|Hc].
  - change (drop 1 ("="%char :: b)) with b. cbn [take]. intros Hk. eexists.
    destruct (IndexByte b "="%char); injection Hk as <-; reflexivity.
  - destruct (IndexByte b "="%char) as [i|]; [|discriminate].
    cbn [fmap option_fmap option_map take string_of_list_ascii key_name].
    intros [= <-]. cbn [key_name]. rewrite decide_False by exact Hc.
    eexists. reflexivity.
Qed.

Lemma env_map_base (base : gmap string string) env :
  foldl (fun m kv => match env_entry kv with
                     | Some (k, v) => <[k := v]> m
                     | None => m
                     end) base env
  = env_map env ∪ base.
Proof.
  unfold env_map. revert base.
  induction env as [|kv env IH]; intros base; cbn [foldl].
  - symmetry. apply (left_id_L ∅ (∪)).
  - rewrite IH. rewrite (IH (match env_entry kv with
                             | Some (k, v) => <[k := v]> ∅
                             | None => ∅
                             end)).
    rewrite <- (assoc_L (∪)). f_equal.
    destruct (env_entry kv) as [[k v]|].
    + rewrite insert_union_singleton_l, insert_empty. reflexivity.
    + symmetry. apply (left_id_L ∅ (∪)).
Qed.

Lemma env_map_cons kv env : env_map (kv :: env) = env_map env ∪ env_map [kv].
Proof. unfold env_map at 1. cbn [foldl]. apply env_map_base. Qed.

Lemma env_map_defines e env n v :
  e ∈ env -> env_entry e = Some (n, v) -> is_Some (env_map env !! n).
Proof.
  induction env as [|kv env IH]; intros Hin He; [inversion Hin|].
  rewrite env_map_cons, lookup_union.
  apply elem_of_cons in Hin as [<- | Hin].
  - unfold env_map at 2. cbn [foldl]. rewrite He, lookup_insert_eq.
    destruct (env_map env !! n); eauto.
  - destruct (IH Hin He) as [w ->]. destruct (env_map [kv] !! n); eauto.
Qed.

Lemma env_map_later_wins kv env e k :
  e ∈ env -> dedup_key e = Some k -> dedup_key kv = Some k ->
  env_map (kv :: env) = env_map env.
Proof.
  intros Hin He Hkv.
  destruct (dedup_key_name _ _ He) as [v Hev].
  destruct (dedup_key_name _ _ Hkv) as [w Hkw].
  destruct (env_map_defines e env _ _ Hin Hev) as [x Hx].
  rewrite env_map_cons. apply map_eq. intros i. rewrite lookup_union.
  unfold env_map at 2. cbn [foldl]. rewrite Hkw.
  destruct (decide (i = key_name k)) as [->|Hne].
  - rewrite Hx, lookup_insert_eq. reflexivity.
  - rewrite lookup_insert_ne, lookup_empty by congruence.
    destruct (env_map env !! i); reflexivity.
Qed.

Lemma env_map_no_entry kv env :
  dedup_key kv = None -> env_map (kv :: env) = env_map env.
Proof.
  intros Hk. rewrite env_map_cons. unfold env_map at 2. cbn [foldl].
  assert (He : env_entry kv = None).
  { unfold dedup_key in Hk. unfold env_entry.
    destruct (IndexByte _ _) as [[|i]|]; [|discriminate|reflexivity].
    destruct (IndexByte (drop 1 _) _); discriminate. }
  rewrite He. apply (right_id_L ∅ (∪)).
Qed.

(** What the loop of [dedupEnv] keeps defines what the whole list
    defines, and the names it has seen are names of the list. *)
Lemma dedup_fold env :
  Forall (fun kv => has_NUL kv = false) env ->
  env_map (foldr dedup_step ([], ∅, false) env).1.1 = env_map env
  /\ (forall k, k ∈ (foldr dedup_step ([], ∅, false) env).1.2 ->
        exists e, e ∈ env /\ dedup_key e = Some k)
  /\ (foldr dedup_step ([], ∅, false) env).2 = false.
Proof.
  induction 1 as [|kv env Hkv _ (IHm & IHs & IHn)]; cbn [foldr].
  - split; [reflexivity|]. split; [|reflexivity].
    intros k Hk. cbn in Hk. set_solver.
  - unfold dedup_step at 1 3 5. rewrite Hkv.
    destruct (dedup_key kv) as [k|] eqn:Hk.
    + destruct (decide (k ∈ _)) as [Hin|Hnew].
      * destruct (IHs k Hin) as (e & He & Hek).
        split; [rewrite IHm; symmetry;
                apply (env_map_later_wins kv env e k He Hek Hk)|].
        split; [|exact IHn].
        intros k' Hk'. destruct (IHs k' Hk') as (e' & He' & Hek').
        exists e'. split; [right; exact He' | exact Hek'].
      * cbn [fst snd]. split.
        { rewrite (env_map_cons kv env), <- IHm. apply env_map_cons. }
        split; [|exact IHn].
        intros k' [Hk'|Hk']%elem_of_union.
        -- apply elem_of_singleton in Hk' as ->. exists kv.
           split; [left | exact Hk].
        -- destruct (IHs k' Hk') as (e' & He' & Hek').
           exists e'. split; [right; exact He' | exact Hek'].
    + assert (Hrest : forall k', k' ∈ (foldr dedup_step ([], ∅, false) env).1.2 ->
                        exists e, e ∈ kv :: env /\ dedup_key e = Some k').
      { intros k' Hk'. destruct (IHs k' Hk') as (e' & He' & Hek').
        exists e'. split; [right; exact He' | exact Hek']. }
      destruct (decide (kv = ""%string)) as [->|Hne]; cbn [fst snd].
      * split; [rewrite IHm; symmetry; apply env_map_no_entry; exact Hk|].
        split; [exact Hrest | exact IHn].
      * split; [rewrite !(env_map_no_entry kv) by exact Hk; exact IHm|].
        split; [exact Hrest | exact IHn].
Qed.

Lemma dedup_fold_NUL env :
  (foldr dedup_step ([], ∅, false) env).2 = existsb has_NUL env.
Proof.
  induction env as [|kv env IH]; [reflexivity|]. cbn [foldr existsb].
  unfold dedup_step at 1. destruct (has_NUL kv); [reflexivity|].
  cbn [orb]. rewrite <- IH.
  destruct (dedup_key kv); [destruct (decide _) | destruct (decide _)];
    reflexivity.
Qed.

(** [dedupEnv] fails exactly when an entry holds a NUL byte. *)
Lemma dedupEnv_error env :
  snd (dedupEnv env) = if existsb has_NUL env then Some ErrNUL else None.
Proof. unfold dedupEnv. cbn [snd]. rewrite dedup_fold_NUL. reflexivity. Qed.

Lemma existsb_has_NUL env :
  Forall (fun kv => has_NUL kv = false) env -> existsb has_NUL env = false.
Proof.
  induction 1 as [|kv env Hkv _ IH]; [reflexivity|].
  cbn [existsb]. rewrite Hkv, IH. reflexivity.
Qed.

(** What is left of a list without NUL bytes defines what the list
    defines. *)
Lemma env_map_dedupEnv env :
  Forall (fun kv => has_NUL kv = false) env ->
  env_map (fst (dedupEnv env)) = env_map env.
Proof. intros H. apply (dedup_fold env H). Qed.


Lemma has_NUL_Sprintf k v :
  has_NUL (Sprintf_kv k v) = has_NUL k || has_NUL v.
Proof.
  unfold has_NUL, Sprintf_kv.
  rewrite !list_ascii_of_string_app. cbn [list_ascii_of_string app].
  rewrite <- bool_decide_or. apply bool_decide_ext.
  rewrite elem_of_app, elem_of_cons. split.
  - intros [?|[?|?]]; [auto | discriminate | auto].
  - intros [?|?]; auto.
Qed.

(** The list [Run] hands to [os/exec], as a map, for names without
    ['=']. *)
Lemma Cmd_env_map envConfig o command args :
  (forall k, k ∈ dom (Variables envConfig) -> plain_name k) ->
  env_map (Cmd_env (os_Environ o) (Run_cmd envConfig command args o))
  = Variables envConfig ∪ env_map (os_Environ o).
Proof.
  intros Hplain. unfold Cmd_env.
  destruct (decide (Variables envConfig = ∅)) as [He|Hne].
  - rewrite Run_cmd_Env_none by exact He. rewrite He.
    symmetry. apply (left_id_L ∅ (∪)).
  - rewrite Run_cmd_Env_some by exact Hne.
    rewrite env_map_app.
    + rewrite foldl_insert_union by apply map_range_keys_NoDup.
      rewrite list_to_map_range. reflexivity.
    + apply Forall_forall. intros [k v] Hin. cbn. apply Hplain.
      rewrite (map_range_perm _ _) in Hin.
      apply elem_of_map_to_list in Hin.
      apply elem_of_dom. eauto.
Qed.

(** No NUL byte in the configured names and values nor in the inherited
    entries: none in the list [Run] hands to [os/exec]. *)
Lemma Cmd_env_clean envConfig o command args :
  (forall k v, Variables envConfig !! k = Some v ->
     has_NUL k = false /\ has_NUL v = false) ->
  Forall (fun kv => has_NUL kv = false) (os_Environ o) ->
  Forall (fun kv => has_NUL kv = false)
         (Cmd_env (os_Environ o) (Run_cmd envConfig command args o)).
Proof.
  intros Hclean Hinh. unfold Cmd_env.
  destruct (decide (Variables envConfig = ∅)) as [He|Hne].
  - rewrite Run_cmd_Env_none by exact He. exact Hinh.
  - rewrite Run_cmd_Env_some by exact Hne.
    apply Forall_app. split; [exact Hinh|].
    apply Forall_fmap, Forall_forall. intros [k v] Hin. cbn.
    rewrite (map_range_perm _ _) in Hin.
    apply elem_of_map_to_list in Hin.
    destruct (Hclean k v Hin) as [Hk Hv].
    rewrite has_NUL_Sprintf, Hk, Hv. reflexivity.
Qed.

(** The environment of the child as a map, for names without ['='] and
    entries without NUL bytes. *)
Lemma Run_cmd_env_map envConfig o command args :
  (forall k, k ∈ dom (Variables envConfig) -> plain_name k) ->
  (forall k v, Variables envConfig !! k = Some v ->
     has_NUL k = false /\ has_NUL v = false) ->
  Forall (fun kv => has_NUL kv = false) (os_Environ o) ->
  env_map (Cmd_environ (os_Environ o) (Run_cmd envConfig command args o))
  = Variables envConfig ∪ env_map (os_Environ o).
Proof.
  intros Hplain Hclean Hinh. unfold Cmd_environ.
  rewrite env_map_dedupEnv by (apply Cmd_env_clean; assumption).
  apply Cmd_env_map. exact Hplain.
Qed.

(** With such entries, and the name found, [Cmd.Run] gets as far as
    starting the command. *)
Lemma os_child_spawn envConfig o command args environ :
  (forall k v, Variables envConfig !! k = Some v ->
     has_NUL k = false /\ has_NUL v = false) ->
  Forall (fun kv => has_NUL kv = false) (os_Environ o) ->
  os_lookPath o command = None ->
  os_child o (Run_cmd envConfig command args o) environ
  = os_spawn o (Run_cmd envConfig command args o) environ.
Proof.
  intros Hclean Hinh Hfound. unfold os_child.
  rewrite Run_cmd_Path, Hfound, dedupEnv_error.
  rewrite existsb_has_NUL by (apply Cmd_env_clean; assumption).
  reflexivity.
Qed.

(** An entry with a NUL byte: [Cmd.Run] starts nothing. *)
Lemma os_child_NUL envConfig o command args environ :
  existsb has_NUL (Cmd_env (os_Environ o) (Run_cmd envConfig command args o))
  = true ->
  os_lookPath o command = None ->
  os_child o (Run_cmd envConfig command args o) environ = Some ErrNUL.
Proof.
  intros HNUL Hfound. unfold os_child.
  rewrite Run_cmd_Path, Hfound, dedupEnv_error, HNUL. reflexivity.
Qed.


(** ** The file system *)

Lemma evolves_id o : evolves o (os_fs o) [] = o.
Proof. destruct o. unfold evolves. cbn. rewrite app_nil_r. reflexivity. Qed.

Lemma emit_evolves e o fs evs :
  emit e (evolves o fs evs) = evolves o fs (evs ++ [e]).
Proof. unfold emit, evolves. cbn. rewrite app_assoc. reflexivity. Qed.

Lemma emit_as_evolves e o : emit e o = evolves o (os_fs o) [e].
Proof. reflexivity. Qed.

Lemma set_fs_evolves fs' o fs evs :
  set_fs fs' (evolves o fs evs) = evolves o fs' evs.
Proof. reflexivity. Qed.

Lemma evolves_evolves o fs evs fs' evs' :
  evolves (evolves o fs evs) fs' evs' = evolves o fs' (evs ++ evs').
Proof. unfold evolves. cbn. rewrite app_assoc. reflexivity. Qed.

Lemma elem_of_prefixes (q p : path) :
  q ∈ prefixes p <-> exists n, (1 <= n <= length p)%nat /\ q = take n p.
Proof.
  unfold prefixes. rewrite list_elem_of_fmap. split.
  - intros (n & -> & Hn). apply elem_of_seq in Hn. exists n. split; [lia | reflexivity].
  - intros (n & Hn & ->). exists n. split; [reflexivity|]. apply elem_of_seq. lia.
Qed.

Lemma prefixes_length (q p : path) :
  q ∈ prefixes p -> (1 <= length q <= length p)%nat.
Proof.
  intros (n & Hn & ->)%elem_of_prefixes. rewrite length_take. lia.
Qed.

Lemma prefixes_self (p : path) : p <> [] -> p ∈ prefixes p.
Proof.
  intros Hne. apply elem_of_prefixes. exists (length p). split.
  - destruct p; [congruence | cbn; lia].
  - rewrite firstn_all. reflexivity.
Qed.

Lemma with_dirs_lookup fs dir q :
  with_dirs fs dir !! q
  = if decide (q ∈ prefixes dir) then Some Dir else fs !! q.
Proof.
  unfold with_dirs. induction (prefixes dir) as [|a l IH]; cbn [foldr].
  - rewrite decide_False by apply not_elem_of_nil. reflexivity.
  - destruct (decide (a = q)) as [->|Hne].
    + rewrite lookup_insert_eq. rewrite decide_True by left. reflexivity.
    + rewrite lookup_insert_ne by exact Hne. rewrite IH.
      destruct (decide (q ∈ l)) as [Hin|Hnin].
      * rewrite decide_True by (right; exact Hin). reflexivity.
      * rewrite decide_False; [reflexivity|].
        intros [Heq|Hin]%elem_of_cons; [congruence | contradiction].
Qed.

Lemma fs_node_lookup fs (p : path) : p <> [] -> fs_node fs p = fs !! p.
Proof. destruct p; [congruence | reflexivity]. Qed.

Lemma with_dirs_id fs dir :
  forallb (fun q => is_dir (fs_node fs q)) (prefixes dir) = true ->
  with_dirs fs dir = fs.
Proof.
  intros Hall. apply map_eq. intros q. rewrite with_dirs_lookup.
  destruct (decide (q ∈ prefixes dir)) as [Hin|_]; [|reflexivity].
  rewrite forallb_forall in Hall. specialize (Hall q).
  rewrite <- list_elem_of_In in Hall. specialize (Hall Hin).
  apply prefixes_length in Hin.
  rewrite fs_node_lookup in Hall by (intros ->; cbn in Hin; lia).
  destruct (fs !! q) as [[|]|]; cbn in Hall; congruence.
Qed.

Lemma filepath_Dir_Join dir elem : filepath_Dir (filepath_Join dir elem) = dir.
Proof. apply removelast_last. Qed.

Lemma configPathOf_Dir h : filepath_Dir (configPathOf h) = configDirOf h.
Proof. apply filepath_Dir_Join. Qed.

Lemma configPathOf_not_prefix h : configPathOf h ∉ prefixes (configDirOf h).
Proof.
  intros Hin%prefixes_length. unfold configPathOf, filepath_Join in Hin.
  rewrite length_app in Hin. cbn in Hin. lia.
Qed.

Lemma configDirOf_nonempty h : configDirOf h <> [].
Proof. unfold configDirOf, filepath_Join. destruct h; discriminate. Qed.

Lemma configPathOf_nonempty h : configPathOf h <> [].
Proof.
  unfold configPathOf, filepath_Join. destruct (configDirOf h); discriminate.
Qed.

Lemma GetConfigPath_home o h :
  os_home o = Some h -> GetConfigPath o = Ok (configPathOf h).
Proof.
  intros Hh. unfold GetConfigPath, GetConfigDir, os_UserHomeDir.
  rewrite Hh. reflexivity.
Qed.

Lemma GetConfigPath_no_home o :
  os_home o = None ->
  GetConfigPath o
  = Err (wrapError "failed to get user home directory: "
                   (errorString "$HOME is not defined")).
Proof.
  intros Hh. unfold GetConfigPath, GetConfigDir, os_UserHomeDir.
  rewrite Hh. reflexivity.
Qed.

(** [os.Stat] reports the file as missing exactly when nothing stands at
    the path and no ancestor is a regular file. *)
Lemma Stat_not_exist (p : path) o :
  os_IsNotExist (fst (os_Stat p o)) = true
  <-> blocked (os_fs o) p = false /\ fs_node (os_fs o) p = None.
Proof.
  unfold os_Stat. destruct (blocked (os_fs o) p); cbn.
  - split; [discriminate | intros [? _]; discriminate].
  - destruct (fs_node (os_fs o) p); cbn; split; auto.
    + discriminate.
    + intros [_ ?]; discriminate.
Qed.

Lemma Stat_state (p : path) o : snd (os_Stat p o) = emit (EvStat p) o.
Proof.
  unfold os_Stat. destruct (blocked _ _); [reflexivity|].
  destruct (fs_node _ _); reflexivity.
Qed.

Lemma ReadFile_state (p : path) o : snd (os_ReadFile p o) = emit (EvReadFile p) o.
Proof.
  unfold os_ReadFile. destruct (blocked _ _); [reflexivity|].
  destruct (fs_node _ _) as [[|]|]; reflexivity.
Qed.

Lemma ReadFile_result (p : path) o fs evs :
  fst (os_ReadFile p (evolves o fs evs)) = fst (os_ReadFile p (evolves o fs [])).
Proof.
  unfold os_ReadFile. cbn. destruct (blocked _ _); [reflexivity|].
  destruct (fs_node _ _) as [[|]|]; reflexivity.
Qed.

Lemma existsb_false {A} (f : A -> bool) (l : list A) :
  existsb f l = false <-> forall x, x ∈ l -> f x = false.
Proof.
  induction l as [|a l IH]; cbn.
  - split; [intros _ x Hx; inversion Hx | reflexivity].
  - rewrite orb_false_iff, IH. split.
    + intros [Ha Hl] x [->|Hx]%elem_of_cons; auto.
    + intros H. split; [apply H; left | intros x Hx; apply H; right; exact Hx].
Qed.

Lemma blocked_all_dirs fs (dir : path) (elem : string) :
  (forall q, q ∈ prefixes dir -> fs !! q = Some Dir) ->
  blocked fs (filepath_Join dir elem) = false.
Proof.
  intros Hdirs. unfold blocked. rewrite filepath_Dir_Join.
  apply existsb_false. intros q Hq.
  rewrite fs_node_lookup.
  - rewrite (Hdirs q Hq). reflexivity.
  - intros ->. apply prefixes_length in Hq. cbn in Hq. lia.
Qed.

Lemma os_readonly_evolves o fs evs :
  os_readonly (evolves o fs evs) = os_readonly o.
Proof. reflexivity. Qed.

Lemma os_readonly_emit e o : os_readonly (emit e o) = os_readonly o.
Proof. reflexivity. Qed.

(** A file system that takes files takes directories. *)
Lemma os_no_mkdir_writable o : os_readonly o = false -> os_no_mkdir o = false.
Proof. unfold os_readonly, os_no_mkdir. destruct (os_refusal o); auto. Qed.

(** [os.MkdirAll] on a file system that takes changes: afterwards every
    prefix of the directory is a directory. *)
Lemma MkdirAll_ok (dir : path) o :
  existsb (fun q => is_file (fs_node (os_fs o) q)) (prefixes dir) = false ->
  os_readonly o = false ->
  os_MkdirAll dir o
  = (None, evolves o (with_dirs (os_fs o) dir) [EvMkdirAll dir]).
Proof.
  intros Hfiles Hrw. unfold os_MkdirAll.
  rewrite Hfiles, (os_no_mkdir_writable o Hrw).
  destruct (forallb _ _) eqn:Hall.
  - rewrite with_dirs_id by exact Hall. reflexivity.
  - reflexivity.
Qed.

Lemma WriteFile_ok (dir : path) (elem data : string) o fs evs :
  (forall q, q ∈ prefixes dir -> fs !! q = Some Dir) ->
  dir <> [] ->
  fs !! filepath_Join dir elem = None ->
  os_readonly o = false ->
  os_WriteFile (filepath_Join dir elem) data (evolves o fs evs)
  = (None, evolves o (<[filepath_Join dir elem := File data]> fs)
                   (evs ++ [EvWriteFile (filepath_Join dir elem) data])).
Proof.
  intros Hdirs Hne Hfree Hrw. unfold os_WriteFile.
  rewrite os_readonly_evolves. cbn [os_fs evolves].
  rewrite (blocked_all_dirs _ _ _ Hdirs), filepath_Dir_Join.
  rewrite (fs_node_lookup _ dir) by exact Hne.
  rewrite (Hdirs dir) by (apply prefixes_self; exact Hne).
  rewrite fs_node_lookup by (unfold filepath_Join; destruct dir; discriminate).
  rewrite Hfree, Hrw. cbn [is_dir negb].
  rewrite emit_evolves. reflexivity.
Qed.

Lemma ReadFile_ok (dir : path) (elem data : string) o fs evs :
  (forall q, q ∈ prefixes dir -> fs !! q = Some Dir) ->
  fs !! filepath_Join dir elem = Some (File data) ->
  os_ReadFile (filepath_Join dir elem) (evolves o fs evs)
  = (Ok data, evolves o fs (evs ++ [EvReadFile (filepath_Join dir elem)])).
Proof.
  intros Hdirs Hfile. unfold os_ReadFile. cbn [os_fs evolves].
  rewrite (blocked_all_dirs _ _ _ Hdirs).
  rewrite fs_node_lookup by (unfold filepath_Join; destruct dir; discriminate).
  rewrite Hfile, emit_evolves. reflexivity.
Qed.

Lemma os_refusal_evolves o fs evs :
  os_refusal (evolves o fs evs) = os_refusal o.
Proof. reflexivity. Qed.

Lemma MkdirAll_cases (dir : path) o :
  os_MkdirAll dir o
  = if existsb (fun q => is_file (fs_node (os_fs o) q)) (prefixes dir) then
      (Some (PathError "mkdir"
               (first_where (fun q => is_file (fs_node (os_fs o) q))
                            (prefixes dir) dir) ENOTDIR),
       emit (EvMkdirAll dir) o)
    else if forallb (fun q => is_dir (fs_node (os_fs o) q)) (prefixes dir)
            || negb (os_no_mkdir o) then
      (None, evolves o (with_dirs (os_fs o) dir) [EvMkdirAll dir])
    else
      (Some (PathError "mkdir"
               (first_where (fun q => negb (is_dir (fs_node (os_fs o) q)))
                            (prefixes dir) dir) EROFS),
       emit (EvMkdirAll dir) o).
Proof.
  unfold os_MkdirAll. destruct (existsb _ _); [reflexivity|].
  destruct (forallb _ _) eqn:Hall; cbn [orb].
  - rewrite with_dirs_id by exact Hall. reflexivity.
  - destruct (os_no_mkdir o); reflexivity.
Qed.

Lemma WriteFile_in_dir (dir : path) (elem data : string) o fs evs :
  (forall q, q ∈ prefixes dir -> fs !! q = Some Dir) ->
  os_WriteFile (filepath_Join dir elem) data (evolves o fs evs)
  = if is_dir (fs !! filepath_Join dir elem) then
      (Some (PathError "open" (filepath_Join dir elem) EISDIR),
       evolves o fs (evs ++ [EvWriteFile (filepath_Join dir elem) data]))
    else if os_readonly o then
      (Some (PathError "open" (filepath_Join dir elem) (os_errno o)),
       evolves o fs (evs ++ [EvWriteFile (filepath_Join dir elem) data]))
    else
      (None, evolves o (<[filepath_Join dir elem := File data]> fs)
                       (evs ++ [EvWriteFile (filepath_Join dir elem) data])).
Proof.
  intros Hdirs. unfold os_WriteFile.
  rewrite os_readonly_evolves.
  change (os_errno (evolves o fs evs)) with (os_errno o).
  cbn [os_fs evolves].
  rewrite (blocked_all_dirs _ _ _ Hdirs), filepath_Dir_Join.
  assert (Hdir : is_dir (fs_node fs dir) = true).
  { destruct (decide (dir = [])) as [->|Hne]; [reflexivity|].
    rewrite fs_node_lookup by exact Hne.
    rewrite (Hdirs dir) by (apply prefixes_self; exact Hne). reflexivity. }
  rewrite Hdir. cbn [negb].
  rewrite fs_node_lookup by (unfold filepath_Join; destruct dir; discriminate).
  rewrite emit_evolves.
  destruct (is_dir _); [reflexivity|].
  destruct (os_readonly o); reflexivity.
Qed.

Lemma Join_not_prefix (dir : path) (elem : string) :
  filepath_Join dir elem ∉ prefixes dir.
Proof.
  intros Hin. apply prefixes_length in Hin.
  unfold filepath_Join in Hin. rewrite length_app in Hin. cbn in Hin. lia.
Qed.

Lemma createDefaultConfig_cases (dir : path) (elem : string) o :
  createDefaultConfig (filepath_Join dir elem) o
  = let configPath := filepath_Join dir elem in
    let fs1 := with_dirs (os_fs o) dir in
    let evs := [EvMkdirAll dir; EvWriteFile configPath defaultConfig] in
    if existsb (fun q => is_file (fs_node (os_fs o) q)) (prefixes dir) then
      (Some (wrapError "failed to create config directory: "
               (PathError "mkdir"
                  (first_where (fun q => is_file (fs_node (os_fs o) q))
                               (prefixes dir) dir) ENOTDIR)),
       emit (EvMkdirAll dir) o)
    else if forallb (fun q => is_dir (fs_node (os_fs o) q)) (prefixes dir)
            || negb (os_no_mkdir o) then
      if is_dir (os_fs o !! configPath) then
        (Some (PathError "open" configPath EISDIR), evolves o fs1 evs)
      else if os_readonly o then
        (Some (PathError "open" configPath (os_errno o)), evolves o fs1 evs)
      else
        (None, evolves o (<[configPath := File defaultConfig]> fs1) evs)
    else
      (Some (wrapError "failed to create config directory: "
               (PathError "mkdir"
                  (first_where (fun q => negb (is_dir (fs_node (os_fs o) q)))
                               (prefixes dir) dir) EROFS)),
       emit (EvMkdirAll dir) o).
Proof.
  unfold createDefaultConfig. rewrite filepath_Dir_Join, MkdirAll_cases.
  cbv zeta.
  destruct (existsb _ _); [reflexivity|].
  destruct (_ || _); [|reflexivity].
  rewrite WriteFile_in_dir.
  - rewrite with_dirs_lookup, decide_False by apply Join_not_prefix.
    reflexivity.
  - intros q Hq. rewrite with_dirs_lookup, decide_True by exact Hq.
    reflexivity.
Qed.

(** ** [LoadConfig], case by case *)

Lemma LoadConfig_no_home o :
  os_home o = None ->
  LoadConfig o
  = (Err (wrapError "failed to get user home directory: "
                    (errorString "$HOME is not defined")), o).
Proof.
  intros Hh. unfold LoadConfig. rewrite (GetConfigPath_no_home _ Hh).
  reflexivity.
Qed.

(** The file is there (or [os.Stat] fails for another reason than its
    absence): [LoadConfig] calls [os.Stat] and [os.ReadFile] and nothing
    else. *)
Lemma LoadConfig_present o h :
  os_home o = Some h ->
  os_IsNotExist (fst (os_Stat (configPathOf h) o)) = false ->
  LoadConfig o
  = (decode_loaded (fst (os_ReadFile (configPathOf h) o)),
     evolves o (os_fs o) [EvStat (configPathOf h); EvReadFile (configPathOf h)]).
Proof.
  intros Hh Hstat. unfold LoadConfig. rewrite (GetConfigPath_home _ _ Hh).
  pose proof (Stat_state (configPathOf h) o) as Hs.
  destruct (os_Stat (configPathOf h) o) as [err o1]. cbn [fst snd] in *.
  subst o1. rewrite Hstat.
  rewrite emit_as_evolves.
  pose proof (ReadFile_state (configPathOf h)
                (evolves o (os_fs o) [EvStat (configPathOf h)])) as Hr.
  pose proof (ReadFile_result (configPathOf h) o (os_fs o)
                [EvStat (configPathOf h)]) as Hres.
  rewrite evolves_id in Hres.
  destruct (os_ReadFile (configPathOf h) (evolves o (os_fs o) _))
    as [r o3]. cbn [fst snd] in *. subst o3.
  rewrite emit_evolves. rewrite <- Hres.
  unfold decode_loaded. destruct r as [data|err']; [|reflexivity].
  destruct (yaml_Unmarshal data); reflexivity.
Qed.

(** The file is missing and the file system takes changes: [LoadConfig]
    creates the directory and the file, says so, and reads the file back. *)
Lemma LoadConfig_creates o h :
  os_home o = Some h ->
  os_IsNotExist (fst (os_Stat (configPathOf h) o)) = true ->
  os_readonly o = false ->
  LoadConfig o
  = (decode_loaded (Ok defaultConfig),
     evolves o (with_default_config (os_fs o) h)
       ([EvStat (configPathOf h); EvMkdirAll (configDirOf h);
         EvWriteFile (configPathOf h) defaultConfig]
        ++ created_notice (configPathOf h)
        ++ [EvReadFile (configPathOf h)])).
Proof.
  intros Hh Hstat Hrw. unfold LoadConfig, with_default_config.
  rewrite (GetConfigPath_home _ _ Hh).
  pose proof (Stat_state (configPathOf h) o) as Hs.
  pose proof Hstat as [Hblocked Hfree]%Stat_not_exist.
  destruct (os_Stat (configPathOf h) o) as [err o1]. cbn [fst snd] in *.
  subst o1. rewrite Hstat.
  unfold createDefaultConfig. rewrite configPathOf_Dir.
  rewrite MkdirAll_ok; cycle 1.
  { unfold blocked in Hblocked. rewrite configPathOf_Dir in Hblocked.
    exact Hblocked. }
  { exact Hrw. }
  cbn [os_fs emit].
  rewrite emit_as_evolves, evolves_evolves. cbn [os_fs evolves].
  assert (Hdirs : forall q, q ∈ prefixes (configDirOf h) ->
                    with_dirs (os_fs o) (configDirOf h) !! q = Some Dir).
  { intros q Hq. rewrite with_dirs_lookup, decide_True by exact Hq.
    reflexivity. }
  unfold configPathOf at 1 2.
  rewrite (WriteFile_ok (configDirOf h) "config.yaml" defaultConfig o).
  - fold (configPathOf h). unfold fmt_Println. rewrite !emit_evolves.
    rewrite (ReadFile_ok (configDirOf h) "config.yaml" defaultConfig o).
    + fold (configPathOf h). unfold decode_loaded, created_notice.
      rewrite <- !app_assoc. cbn [app].
      destruct (yaml_Unmarshal defaultConfig); reflexivity.
    + intros q Hq. rewrite lookup_insert_ne.
      * apply Hdirs, Hq.
      * intros <-. apply (configPathOf_not_prefix h). exact Hq.
    + apply lookup_insert_eq.
  - exact Hdirs.
  - apply configDirOf_nonempty.
  - fold (configPathOf h). rewrite with_dirs_lookup.
    rewrite decide_False by apply configPathOf_not_prefix.
    rewrite <- fs_node_lookup by apply configPathOf_nonempty. exact Hfree.
  - exact Hrw.
Qed.

(** The file is missing and the file system refuses the creation: it is
    attempted, fails, and [LoadConfig] reports it. *)
Lemma LoadConfig_refused o h :
  os_home o = Some h ->
  os_IsNotExist (fst (os_Stat (configPathOf h) o)) = true ->
  os_readonly o = true ->
  LoadConfig o
  = (Err (wrapError "failed to create default config: "
                    (refused_creation o h)),
     evolves o (refused_files o h)
       (EvStat (configPathOf h) :: refused_calls o h)).
Proof.
  intros Hh Hstat Hro. unfold LoadConfig.
  rewrite (GetConfigPath_home _ _ Hh).
  pose proof (Stat_state (configPathOf h) o) as Hs.
  pose proof Hstat as [Hblocked Hfree]%Stat_not_exist.
  destruct (os_Stat (configPathOf h) o) as [err o1]. cbn [fst snd] in *.
  subst o1. rewrite Hstat, emit_as_evolves.
  unfold configPathOf at 1.
  rewrite (createDefaultConfig_cases (configDirOf h) "config.yaml").
  fold (configPathOf h). cbv zeta.
  rewrite os_readonly_evolves, Hro.
  change (os_no_mkdir (evolves o (os_fs o) [EvStat (configPathOf h)]))
    with (os_no_mkdir o).
  change (os_errno (evolves o (os_fs o) [EvStat (configPathOf h)]))
    with (os_errno o).
  cbn [os_fs evolves].
  unfold blocked in Hblocked. rewrite configPathOf_Dir in Hblocked.
  rewrite Hblocked.
  rewrite fs_node_lookup in Hfree by apply configPathOf_nonempty.
  rewrite Hfree. cbn [is_dir].
  unfold refused_creation, refused_files, refused_calls, dir_made.
  destruct (_ || _); unfold evolves, emit; cbn;
    rewrite <- ?app_assoc; reflexivity.
Qed.

Lemma LoadConfig_readonly o h :
  os_home o = Some h ->
  os_IsNotExist (fst (os_Stat (configPathOf h) o)) = true ->
  os_readonly o = true ->
  exists err fs' evs,
    LoadConfig o
    = (Err (wrapError "failed to create default config: " err),
       evolves o fs'
         ([EvStat (configPathOf h); EvMkdirAll (configDirOf h)] ++ evs))
    /\ (fs' = os_fs o \/ fs' = with_dirs (os_fs o) (configDirOf h))
    /\ (evs = [] \/ evs = [EvWriteFile (configPathOf h) defaultConfig]).
Proof.
  intros Hh Hstat Hro. rewrite (LoadConfig_refused o h Hh Hstat Hro).
  unfold refused_files, refused_calls.
  destruct (dir_made o h); eexists _, _, _; (split; [reflexivity|]); auto.
Qed.

Lemma ReadFile_Ok_Stat (p : path) o data :
  fst (os_ReadFile p o) = Ok data -> fst (os_Stat p o) = None.
Proof.
  unfold os_ReadFile, os_Stat. destruct (blocked _ _); [discriminate|].
  destruct (fs_node _ _) as [[|]|]; cbn; congruence.
Qed.

(** [LoadConfig] on a file that is there and holds [data]. *)
Lemma LoadConfig_reads o h data :
  os_home o = Some h ->
  fst (os_ReadFile (configPathOf h) o) = Ok data ->
  LoadConfig o
  = (decode_loaded (Ok data),
     evolves o (os_fs o) [EvStat (configPathOf h); EvReadFile (configPathOf h)]).
Proof.
  intros Hh Hread. rewrite (LoadConfig_present o h Hh).
  - rewrite Hread. reflexivity.
  - rewrite (ReadFile_Ok_Stat _ _ _ Hread). reflexivity.
Qed.

Lemma decode_loaded_not_nil r cfg :
  decode_loaded r = Ok cfg -> exists m, Environments cfg = Some m.
Proof.
  unfold decode_loaded. destruct r as [data|]; [|discriminate].
  destruct (yaml_Unmarshal data) as [c|]; [|discriminate].
  intros [= <-]. destruct (Environments c) eqn:He; cbn; eauto.
Qed.

(** Whatever the state, a configuration that [LoadConfig] returns has a
    map that is not nil. *)
Lemma LoadConfig_not_nil o cfg o' :
  LoadConfig o = (Ok cfg, o') -> exists m, Environments cfg = Some m.
Proof.
  destruct (os_home o) as [h|] eqn:Hh.
  - destruct (os_IsNotExist (fst (os_Stat (configPathOf h) o))) eqn:Hstat.
    + destruct (os_readonly o) eqn:Hro.
      * destruct (LoadConfig_readonly o h Hh Hstat Hro) as (e & fs' & evs & -> & _).
        discriminate.
      * rewrite (LoadConfig_creates o h Hh Hstat Hro).
        intros H. apply (f_equal fst) in H. cbn [fst] in H.
        eapply decode_loaded_not_nil, H.
    + rewrite (LoadConfig_present o h Hh Hstat).
      intros H. apply (f_equal fst) in H. cbn [fst] in H.
      eapply decode_loaded_not_nil, H.
  - rewrite (LoadConfig_no_home o Hh). discriminate.
Qed.

(** C4. A configuration file that parses, but whose [environments] section
    is absent or null (the parser leaves the map nil) or empty (the parser
    returns an empty map), makes [LoadConfig] return a configuration whose
    map is not nil and has no entry; and no configuration that [LoadConfig]
    returns ever has a nil map. *)
Theorem LoadConfig_empty_environments (o : OS) (h : path) (data : string)
    (parsed : Config) :
  os_home o = Some h ->
  fst (os_ReadFile (configPathOf h) o) = Ok data ->
  yaml_Unmarshal data = Ok parsed ->
  Environments parsed = None \/ Environments parsed = Some ∅ ->
  (exists cfg o' m,
      LoadConfig o = (Ok cfg, o')
      /\ Environments cfg = Some m /\ size m = 0%nat
      /\ forall name, lookupEnvironment cfg name = None)
  /\ (forall o1 cfg o', LoadConfig o1 = (Ok cfg, o') ->
        exists m, Environments cfg = Some m).
Proof.
  intros Hh Hread Hparse Hempty. split.
  - rewrite (LoadConfig_reads o h data Hh Hread).
    unfold decode_loaded. rewrite Hparse.
    exists {| Environments := Some ∅ |}.
    eexists _, ∅. split; [|split; [reflexivity | split]].
    + f_equal. f_equal. destruct parsed as [envs]. cbn in *.
      destruct Hempty as [-> | ->]; reflexivity.
    + apply map_size_empty.
    + intros name. unfold lookupEnvironment. cbn. apply lookup_empty.
  - intros o1 cfg o' H. eapply LoadConfig_not_nil, H.
Qed.

Lemma with_default_config_file fs h :
  with_default_config fs h !! configPathOf h = Some (File defaultConfig).
Proof. apply lookup_insert_eq. Qed.

Lemma with_default_config_dir fs h q :
  q ∈ prefixes (configDirOf h) -> with_default_config fs h !! q = Some Dir.
Proof.
  intros Hq. unfold with_default_config. rewrite lookup_insert_ne.
  - rewrite with_dirs_lookup, decide_True by exact Hq. reflexivity.
  - intros <-. apply (configPathOf_not_prefix h). exact Hq.
Qed.

(** Once the default file is there, a load finds it and reads it. *)
Lemma LoadConfig_after_creation o h evs :
  os_home o = Some h ->
  LoadConfig (evolves o (with_default_config (os_fs o) h) evs)
  = (decode_loaded (Ok defaultConfig),
     evolves o (with_default_config (os_fs o) h)
       (evs ++ [EvStat (configPathOf h); EvReadFile (configPathOf h)])).
Proof.
  intros Hh.
  rewrite (LoadConfig_reads _ h defaultConfig).
  - rewrite evolves_evolves. reflexivity.
  - exact Hh.
  - unfold configPathOf at 1.
    rewrite (ReadFile_ok (configDirOf h) "config.yaml" defaultConfig);
      [reflexivity | |].
    + apply with_default_config_dir.
    + apply with_default_config_file.
Qed.

(** C5. When the configuration file is there already, [LoadConfig] only
    asks for its status and reads it: the files and directories are left
    as they were, and nothing is created or written.  In any state, if
    [LoadConfig] does create a directory or write a file, or the file
    system is not what it was, then [os.Stat] had reported the file
    missing.  And the creation happens once: a load that follows the one
    which created the file only reads it. *)
Theorem LoadConfig_keeps_existing_file (o : OS) (h : path) :
  os_home o = Some h ->
  (fst (os_Stat (configPathOf h) o) = None ->
   snd (LoadConfig o)
   = evolves o (os_fs o) [EvStat (configPathOf h); EvReadFile (configPathOf h)]
   /\ os_fs (snd (LoadConfig o)) = os_fs o
   /\ fs_node (os_fs (snd (LoadConfig o))) (configPathOf h)
      = fs_node (os_fs o) (configPathOf h))
  /\ (forall evs, os_trace (snd (LoadConfig o)) = os_trace o ++ evs ->
        existsb is_write evs = true ->
        os_IsNotExist (fst (os_Stat (configPathOf h) o)) = true)
  /\ (os_fs (snd (LoadConfig o)) <> os_fs o ->
      os_IsNotExist (fst (os_Stat (configPathOf h) o)) = true)
  /\ (os_IsNotExist (fst (os_Stat (configPathOf h) o)) = true ->
      os_readonly o = false ->
      let o1 := snd (LoadConfig o) in
      os_fs o1 !! configPathOf h = Some (File defaultConfig)
      /\ snd (LoadConfig o1)
         = evolves o1 (os_fs o1)
             [EvStat (configPathOf h); EvReadFile (configPathOf h)]).
Proof.
  intros Hh. split; [|split; [|split]].
  - intros Hstat. rewrite (LoadConfig_present o h Hh) by (rewrite Hstat; reflexivity).
    cbn [snd]. auto.
  - intros evs Htrace Hw.
    destruct (os_IsNotExist _) eqn:Hstat; [reflexivity|].
    rewrite (LoadConfig_present o h Hh Hstat) in Htrace. cbn in Htrace.
    apply app_inv_head in Htrace. subst evs. discriminate.
  - intros Hfs.
    destruct (os_IsNotExist _) eqn:Hstat; [reflexivity|].
    rewrite (LoadConfig_present o h Hh Hstat) in Hfs. cbn in Hfs. congruence.
  - intros Hstat Hrw o1. subst o1.
    rewrite (LoadConfig_creates o h Hh Hstat Hrw). cbn [snd].
    split; [apply with_default_config_file|].
    rewrite (LoadConfig_after_creation o h _ Hh). cbn [snd os_fs evolves].
    rewrite evolves_evolves. reflexivity.
Qed.

(** ** [printAvailableEnvironments] and [main] *)

Lemma print_names_evolves o fs evs (names : list string) :
  foldl (fun o name => fmt_Println ("  " +:+ name) o) (evolves o fs evs) names
  = evolves o fs (evs ++ ((fun name => EvStdout ("  " +:+ name)) <$> names)).
Proof.
  revert evs. induction names as [|n names IH]; intros evs; cbn [foldl].
  - cbn. rewrite app_nil_r. reflexivity.
  - unfold fmt_Println at 2. rewrite emit_evolves, IH, <- app_assoc.
    reflexivity.
Qed.

Lemma printAvailableEnvironments_names o cfg o1 :
  LoadConfig o = (Ok cfg, o1) ->
  printAvailableEnvironments o = evolves o1 (os_fs o1) (name_lines cfg).
Proof.
  intros HL. unfold printAvailableEnvironments. rewrite HL.
  rewrite <- (evolves_id o1) at 1. rewrite print_names_evolves. reflexivity.
Qed.

Lemma printAvailableEnvironments_note o err o1 :
  LoadConfig o = (Err err, o1) ->
  printAvailableEnvironments o = emit (unable_note err) o1.
Proof.
  intros HL. unfold printAvailableEnvironments. rewrite HL. reflexivity.
Qed.

Lemma main_no_argument args o :
  (length args < 2)%nat ->
  main args o
  = (1, printAvailableEnvironments (evolves o (os_fs o) usage_lines)).
Proof.
  intros Hlen. destruct args as [|prog [|name rest]];
    [| | cbn in Hlen; lia];
    unfold main, fmt_Println;
    rewrite (emit_as_evolves _ o), emit_evolves; reflexivity.
Qed.

Lemma main_load_failed prog name rest o err o1 :
  LoadConfig o = (Err err, o1) ->
  main (prog :: name :: rest) o
  = (1, log_Fatalf ("Failed to load configuration: " +:+ Error err) o1).
Proof. intros HL. unfold main. rewrite HL. reflexivity. Qed.

Lemma main_not_found prog name rest o cfg o1 :
  LoadConfig o = (Ok cfg, o1) ->
  lookupEnvironment cfg name = None ->
  main (prog :: name :: rest) o
  = (1, printAvailableEnvironments
          (evolves o1 (os_fs o1) (not_found_lines name))).
Proof.
  intros HL Hl. unfold main. rewrite HL, Hl. unfold fmt_Println.
  rewrite (emit_as_evolves _ o1), emit_evolves. reflexivity.
Qed.

Lemma main_run_failed prog name rest o cfg o1 envConfig err o2 :
  LoadConfig o = (Ok cfg, o1) ->
  lookupEnvironment cfg name = Some envConfig ->
  Run envConfig o1 = (Some err, o2) ->
  main (prog :: name :: rest) o
  = (1, log_Fatalf ("Failed to run command: " +:+ Error err) o2).
Proof. intros HL Hl HR. unfold main. rewrite HL, Hl, HR. reflexivity. Qed.

Lemma main_run_ok prog name rest o cfg o1 envConfig o2 :
  LoadConfig o = (Ok cfg, o1) ->
  lookupEnvironment cfg name = Some envConfig ->
  Run envConfig o1 = (None, o2) ->
  main (prog :: name :: rest) o = (0, o2).
Proof. intros HL Hl HR. unfold main. rewrite HL, Hl, HR. reflexivity. Qed.

Lemma listNames_perm cfg :
  listNames cfg ≡ₚ (map_to_list (default ∅ (Environments cfg))).*1.
Proof. unfold listNames. apply fmap_Permutation, map_range_perm. Qed.

Lemma listNames_lookup cfg name :
  name ∈ listNames cfg <-> is_Some (lookupEnvironment cfg name).
Proof.
  rewrite (listNames_perm cfg). unfold lookupEnvironment.
  rewrite list_elem_of_fmap. split.
  - intros ([k e] & -> & Hin). apply elem_of_map_to_list in Hin. eauto.
  - intros [e He]. exists (name, e). split; [reflexivity|].
    apply elem_of_map_to_list. exact He.
Qed.

(** C7. [lookupEnvironment] returns the environment stored under a name exactly when
    that very string is a key of the map, and nothing otherwise.  The names
    the listing visits are the keys of the map, each once.  A file that
    parses to [N] environments makes [LoadConfig] return a map with those
    [N] entries, and the listing then prints those [N] names. *)
Theorem lookup_exact_and_names_complete (cfg : Config) :
  (forall name e,
      lookupEnvironment cfg name = Some e
      <-> (name, e) ∈ map_to_list (default ∅ (Environments cfg)))
  /\ (forall name, lookupEnvironment cfg name = None <-> name ∉ listNames cfg)
  /\ NoDup (listNames cfg)
  /\ length (listNames cfg) = size (default ∅ (Environments cfg))
  /\ (forall o h data parsed,
        os_home o = Some h ->
        fst (os_ReadFile (configPathOf h) o) = Ok data ->
        yaml_Unmarshal data = Ok parsed ->
        exists loaded o',
          LoadConfig o = (Ok loaded, o')
          /\ default ∅ (Environments loaded) = default ∅ (Environments parsed)
          /\ size (default ∅ (Environments loaded))
             = size (default ∅ (Environments parsed))
          /\ length (listNames loaded)
             = size (default ∅ (Environments parsed))
          /\ printAvailableEnvironments o
             = evolves o' (os_fs o') (name_lines loaded)).
Proof.
  split; [|split; [|split; [|split]]].
  - intros name e. unfold lookupEnvironment. symmetry. apply elem_of_map_to_list.
  - intros name. rewrite listNames_lookup, eq_None_not_Some. reflexivity.
  - unfold listNames. apply map_range_keys_NoDup.
  - rewrite (listNames_perm cfg), length_fmap. apply length_map_to_list.
  - intros o h data parsed Hh Hread Hparse.
    pose proof (LoadConfig_reads o h data Hh Hread) as HL.
    unfold decode_loaded in HL. rewrite Hparse in HL.
    eexists _, _. split; [exact HL|].
    assert (Hsame : default ∅ (Environments
                      match Environments parsed with
                      | Some _ => parsed
                      | None => {| Environments := Some ∅ |}
                      end) = default ∅ (Environments parsed)).
    { destruct (Environments parsed) eqn:He; cbn; [rewrite He|]; reflexivity. }
    split; [exact Hsame|]. split; [rewrite Hsame; reflexivity|]. split.
    + rewrite (listNames_perm _), length_fmap, Hsame.
      apply length_map_to_list.
    + apply printAvailableEnvironments_names. exact HL.
Qed.

Lemma Stat_result_evolves (p : path) o evs :
  fst (os_Stat p (evolves o (os_fs o) evs)) = fst (os_Stat p o).
Proof.
  unfold os_Stat. cbn [os_fs evolves].
  destruct (blocked _ _); [reflexivity|].
  destruct (fs_node _ _); reflexivity.
Qed.

(** [LoadConfig] never writes to standard error, and what it does is laid
    down by the files, not by what was printed before. *)
Lemma LoadConfig_trace o :
  exists fs' evs,
    snd (LoadConfig o) = evolves o fs' evs
    /\ Forall (fun e => is_stderr e = false) evs.
Proof.
  destruct (os_home o) as [h|] eqn:Hh.
  - destruct (os_IsNotExist (fst (os_Stat (configPathOf h) o))) eqn:Hstat.
    + destruct (os_readonly o) eqn:Hro.
      * destruct (LoadConfig_readonly o h Hh Hstat Hro)
          as (e & fs' & evs & -> & _ & [-> | ->]);
          eexists _, _; (split; [reflexivity|]); repeat constructor.
      * rewrite (LoadConfig_creates o h Hh Hstat Hro).
        eexists _, _. split; [reflexivity|]. repeat constructor.
    + rewrite (LoadConfig_present o h Hh Hstat).
      eexists _, _. split; [reflexivity|]. repeat constructor.
  - rewrite (LoadConfig_no_home o Hh). exists (os_fs o), [].
    split; [symmetry; apply evolves_id | constructor].
Qed.

Lemma printAvailableEnvironments_after_load s :
  os_fs (printAvailableEnvironments s) = os_fs (snd (LoadConfig s))
  /\ exists evs,
       os_trace (printAvailableEnvironments s)
       = os_trace (snd (LoadConfig s)) ++ evs
       /\ Forall (fun e => is_stderr e = false) evs.
Proof.
  destruct (LoadConfig s) as [[cfg|err] s1] eqn:HL; cbn [snd].
  - rewrite (printAvailableEnvironments_names s cfg s1 HL). split; [reflexivity|].
    exists (name_lines cfg). split; [reflexivity|].
    unfold name_lines. apply Forall_fmap, Forall_forall. reflexivity.
  - rewrite (printAvailableEnvironments_note s err s1 HL). split; [reflexivity|].
    exists [unable_note err]. split; [reflexivity | repeat constructor].
Qed.


(** C10. When the configuration cannot be loaded while the environments
    are being listed, [printAvailableEnvironments] prints the note in
    parentheses where the names would go and returns; nothing reaches
    standard error.  [main] without an argument then still exits with 1,
    the note being the last thing printed.  On the not-found path the exit
    status is 1 as well, after the same listing function has run,
    whatever it prints. *)
Theorem listing_swallows_load_error (s : OS) (err : error) (s1 : OS) :
  LoadConfig s = (Err err, s1) ->
  printAvailableEnvironments s = emit (unable_note err) s1
  /\ (exists evs,
         os_trace (printAvailableEnvironments s)
         = os_trace s ++ evs ++ [unable_note err]
         /\ Forall (fun e => is_stderr e = false) evs)
  /\ (forall args o,
        (length args < 2)%nat ->
        s = evolves o (os_fs o) usage_lines ->
        main args o = (1, emit (unable_note err) s1)
        /\ exists evs,
             os_trace (snd (main args o))
             = os_trace o ++ usage_lines ++ evs ++ [unable_note err]
             /\ Forall (fun e => is_stderr e = false) evs)
  /\ (forall prog name rest o cfg o1,
        LoadConfig o = (Ok cfg, o1) ->
        lookupEnvironment cfg name = None ->
        main (prog :: name :: rest) o
        = (1, printAvailableEnvironments
                (evolves o1 (os_fs o1) (not_found_lines name)))).
Proof.
  intros HL.
  pose proof (printAvailableEnvironments_note s err s1 HL) as Hnote.
  destruct (LoadConfig_trace s) as (fs' & evs & Hs1 & Hevs).
  rewrite HL in Hs1. cbn [snd] in Hs1.
  split; [exact Hnote|]. split; [|split].
  - exists evs. split; [|exact Hevs].
    rewrite Hnote, Hs1. cbn. rewrite <- app_assoc. reflexivity.
  - intros args o Hlen ->. rewrite (main_no_argument args o Hlen), Hnote.
    split; [reflexivity|].
    exists evs. split; [|exact Hevs].
    rewrite Hs1. cbn. rewrite <- !app_assoc. reflexivity.
  - intros prog name rest o cfg o1 HL1 Hl. eapply main_not_found; eassumption.
Qed.

(** C9. Listing invocations go through [LoadConfig] like any other, so
    they too create the default file.  Let the file be missing.  Without
    an argument, [main] lists the environments by calling [LoadConfig],
    which asks for the file's status and sets about creating the
    directory; on a file system that takes the change, the directory and
    the file with the default content are there afterwards.  With a name
    that is not found, the first load has created both, the listing loads
    the configuration a second time (the file is read twice), and the exit
    status is 1. *)
Theorem listing_creates_default_config (o : OS) (h : path) :
  os_home o = Some h ->
  os_IsNotExist (fst (os_Stat (configPathOf h) o)) = true ->
  let created := with_default_config (os_fs o) h in
  let creation :=
    [EvStat (configPathOf h); EvMkdirAll (configDirOf h);
     EvWriteFile (configPathOf h) defaultConfig]
    ++ created_notice (configPathOf h) ++ [EvReadFile (configPathOf h)] in
  created !! configDirOf h = Some Dir
  /\ created !! configPathOf h = Some (File defaultConfig)
  /\ (forall args,
        (length args < 2)%nat ->
        main args o
        = (1, printAvailableEnvironments (evolves o (os_fs o) usage_lines))
        /\ (exists evs,
               os_trace (snd (main args o))
               = os_trace o ++ usage_lines
                 ++ [EvStat (configPathOf h); EvMkdirAll (configDirOf h)]
                 ++ evs)
        /\ (os_readonly o = false ->
            os_fs (snd (main args o)) = created
            /\ exists evs,
                 os_trace (snd (main args o))
                 = os_trace o ++ usage_lines ++ creation ++ evs))
  /\ (forall prog name rest cfg o1,
        LoadConfig o = (Ok cfg, o1) ->
        lookupEnvironment cfg name = None ->
        main (prog :: name :: rest) o
        = (1, evolves o created
                (creation ++ not_found_lines name
                 ++ [EvStat (configPathOf h); EvReadFile (configPathOf h)]
                 ++ name_lines cfg))).
Proof.
  intros Hh Hstat created creation.
  split; [apply with_default_config_dir, prefixes_self, configDirOf_nonempty|].
  split; [apply with_default_config_file|].
  split.
  - intros args Hlen. rewrite (main_no_argument args o Hlen). cbn [snd].
    set (s0 := evolves o (os_fs o) usage_lines).
    assert (Hh0 : os_home s0 = Some h) by exact Hh.
    assert (Hstat0 : os_IsNotExist (fst (os_Stat (configPathOf h) s0)) = true).
    { unfold s0. rewrite Stat_result_evolves. exact Hstat. }
    destruct (printAvailableEnvironments_after_load s0) as (Hfs & evs2 & Htr & _).
    split; [reflexivity|]. split.
    + destruct (os_readonly o) eqn:Hro.
      * destruct (LoadConfig_readonly s0 h Hh0 Hstat0 Hro) as (e & fs' & evs & HL & _).
        rewrite HL in Htr. cbn [snd] in Htr.
        exists (evs ++ evs2). rewrite Htr. cbn.
        rewrite <- !app_assoc. reflexivity.
      * rewrite (LoadConfig_creates s0 h Hh0 Hstat0 Hro) in Htr.
        cbn [snd] in Htr.
        exists ([EvWriteFile (configPathOf h) defaultConfig]
                ++ created_notice (configPathOf h)
                ++ [EvReadFile (configPathOf h)] ++ evs2).
        rewrite Htr. cbn. rewrite <- !app_assoc. reflexivity.
    + intros Hro.
      rewrite (LoadConfig_creates s0 h Hh0 Hstat0 Hro) in Hfs, Htr.
      cbn [snd] in Hfs, Htr. split; [exact Hfs|].
      exists evs2. rewrite Htr. cbn. rewrite <- !app_assoc. reflexivity.
  - intros prog name rest cfg o1 HL Hl.
    rewrite (main_not_found _ _ _ _ _ _ HL Hl).
    destruct (os_readonly o) eqn:Hro.
    + destruct (LoadConfig_readonly o h Hh Hstat Hro) as (e & fs' & evs & HL' & _).
      rewrite HL' in HL. discriminate.
    + rewrite (LoadConfig_creates o h Hh Hstat Hro) in HL.
      injection HL as Hcfg <-.
      rewrite evolves_evolves. cbn [os_fs evolves].
      rewrite (printAvailableEnvironments_names _ cfg _
                 (eq_trans (LoadConfig_after_creation o h _ Hh)
                           (f_equal (fun r => (r, _)) Hcfg))).
      rewrite evolves_evolves. cbn [os_fs evolves].
      subst creation. rewrite <- !app_assoc. reflexivity.
Qed.

(** * Further properties of [main.go]

    What follows covers the code between the places looked at so far:
    how the path of the file is resolved, every way in which [LoadConfig]
    and [createDefaultConfig] fail, what the calls leave behind, and what
    [Run] and [main] do besides. *)

(** The events that print a line. *)
Definition is_output (e : event) : bool :=
  match e with
  | EvStdout _ | EvStderr _ => true
  | _ => false
  end.

(** The commands started by a sequence of events, in order. *)
Definition started (evs : list event) : list Cmd :=
  omap (fun e => match e with EvRun c _ => Some c | _ => None end) evs.

(** One rune for each byte: how a string of ASCII bytes decodes. *)
Definition byte_runes (s : string) : list Strings.rune :=
  (fun c => (byte_val c, [c])) <$> list_ascii_of_string s.

(** A word of ASCII bytes none of which is white space. *)
Definition plain_word (a : string) : Prop :=
  a <> ""%string
  /\ Forall (fun c => byte_val c < 0x80 /\ IsSpace (byte_val c) = false)
            (list_ascii_of_string a).

(** A run of ASCII white space, possibly empty. *)
Definition blanks (s : string) : Prop :=
  Forall ascii_blank (list_ascii_of_string s).

(** A command line written out: each word with the white space in front
    of it, and the white space after the last word. *)
Fixpoint assemble (parts : list (string * string)) (trailer : string)
    : string :=
  match parts with
  | [] => trailer
  | (pad, word) :: rest => pad +:+ word +:+ assemble rest trailer
  end.

(** The words are plain, and white space stands between any two of them. *)
Definition spaced (parts : list (string * string)) (trailer : string) : Prop :=
  Forall (fun pw => blanks (fst pw) /\ plain_word (snd pw)) parts
  /\ Forall (fun pw => fst pw <> ""%string) (tail parts)
  /\ blanks trailer.

(** ** Resolving the path *)

(** X1. [GetConfigPath] yields the home directory followed by [.cs] and
    [config.yaml]; the file lies directly in the directory [GetConfigDir]
    returns, so the directory [createDefaultConfig] computes from the path
    is that one.  [GetConfigPath] fails exactly when [GetConfigDir] does,
    with the same error, which is the error of [os.UserHomeDir] wrapped
    once. *)
Theorem GetConfigPath_in_config_dir (o : OS) :
  (forall p, GetConfigPath o = Ok p
     <-> exists h, os_home o = Some h /\ p = h ++ [".cs"; "config.yaml"]%string)
  /\ (forall p, GetConfigPath o = Ok p ->
        GetConfigDir o = Ok (filepath_Dir p)
        /\ p = filepath_Join (filepath_Dir p) "config.yaml"
        /\ p ∉ prefixes (filepath_Dir p))
  /\ (forall err, GetConfigPath o = Err err <-> GetConfigDir o = Err err)
  /\ (forall err, GetConfigDir o = Err err
        <-> exists cause, os_UserHomeDir o = Err cause
              /\ err = wrapError "failed to get user home directory: " cause).
Proof.
  unfold GetConfigPath, GetConfigDir, os_UserHomeDir.
  destruct (os_home o) as [h|]; (split; [|split; [|split]]).
  - intros p. unfold filepath_Join. rewrite <- app_assoc. cbn [app]. split.
    + intros [= <-]. exists h. auto.
    + intros (h' & [= <-] & ->). reflexivity.
  - intros p [= <-]. rewrite filepath_Dir_Join.
    split; [reflexivity|]. split; [reflexivity|].
    apply configPathOf_not_prefix.
  - intros err. split; discriminate.
  - intros err. split; [discriminate | intros (c & Hc & _); discriminate].
  - intros p. split; [discriminate | intros (h & Hh & _); discriminate].
  - intros p; discriminate.
  - intros err. reflexivity.
  - intros err. split.
    + intros [= <-]. eauto.
    + intros (c & [= <-] & ->). reflexivity.
Qed.

(** ** [LoadConfig]: failures and effects *)

Lemma LoadConfig_events o :
  exists fs' evs,
    snd (LoadConfig o) = evolves o fs' evs
    /\ Forall (fun e => is_stderr e = false) evs
    /\ started evs = [].
Proof.
  destruct (os_home o) as [h|] eqn:Hh.
  - destruct (os_IsNotExist (fst (os_Stat (configPathOf h) o))) eqn:Hstat.
    + destruct (os_readonly o) eqn:Hro.
      * destruct (LoadConfig_readonly o h Hh Hstat Hro)
          as (e & fs' & evs & -> & _ & [-> | ->]);
          eexists _, _; (split; [reflexivity|]);
          (split; [repeat constructor | reflexivity]).
      * rewrite (LoadConfig_creates o h Hh Hstat Hro).
        eexists _, _. split; [reflexivity|].
        split; [repeat constructor | reflexivity].
    + rewrite (LoadConfig_present o h Hh Hstat).
      eexists _, _. split; [reflexivity|].
      split; [repeat constructor | reflexivity].
  - rewrite (LoadConfig_no_home o Hh). exists (os_fs o), [].
    split; [symmetry; apply evolves_id|]. split; [constructor | reflexivity].
Qed.

Lemma printAvailableEnvironments_events o :
  exists evs,
    printAvailableEnvironments o
    = evolves o (os_fs (snd (LoadConfig o))) evs
    /\ Forall (fun e => is_stderr e = false) evs
    /\ started evs = [].
Proof.
  destruct (LoadConfig_events o) as (fs' & evs & Hs & Hq & Hn).
  destruct (LoadConfig o) as [[cfg|err] o1] eqn:HL; cbn [snd] in *; subst o1.
  - rewrite (printAvailableEnvironments_names o cfg _ HL).
    rewrite evolves_evolves. cbn [os_fs evolves].
    eexists. split; [reflexivity|]. split.
    + apply Forall_app. split; [exact Hq|].
      unfold name_lines. apply Forall_fmap, Forall_forall. reflexivity.
    + unfold started in *. rewrite omap_app, Hn. cbn [app].
      unfold name_lines. induction (listNames cfg); [reflexivity | assumption].
  - rewrite (printAvailableEnvironments_note o err _ HL).
    rewrite emit_evolves. cbn [os_fs evolves].
    eexists. split; [reflexivity|]. split.
    + apply Forall_app. split; [exact Hq | repeat constructor].
    + unfold started in *. rewrite omap_app, Hn. reflexivity.
Qed.


(** What [LoadConfig] returns and leaves behind is laid down by the home
    directory and the files, not by what happened before. *)
Lemma LoadConfig_frame o evs :
  fst (LoadConfig (evolves o (os_fs o) evs)) = fst (LoadConfig o)
  /\ os_fs (snd (LoadConfig (evolves o (os_fs o) evs)))
     = os_fs (snd (LoadConfig o)).
Proof.
  set (o' := evolves o (os_fs o) evs).
  destruct (os_home o) as [h|] eqn:Hh.
  - assert (Hh' : os_home o' = Some h) by exact Hh.
    pose proof (Stat_result_evolves (configPathOf h) o evs) as HS.
    fold o' in HS.
    destruct (os_IsNotExist (fst (os_Stat (configPathOf h) o))) eqn:Hstat.
    + assert (Hstat' : os_IsNotExist (fst (os_Stat (configPathOf h) o')) = true)
        by (rewrite HS; exact Hstat).
      destruct (os_readonly o) eqn:Hro.
      * rewrite (LoadConfig_refused o h Hh Hstat Hro).
        rewrite (LoadConfig_refused o' h Hh' Hstat' Hro).
        split; reflexivity.
      * rewrite (LoadConfig_creates o h Hh Hstat Hro).
        rewrite (LoadConfig_creates o' h Hh' Hstat' Hro).
        split; reflexivity.
    + assert (Hstat' : os_IsNotExist (fst (os_Stat (configPathOf h) o')) = false)
        by (rewrite HS; exact Hstat).
      rewrite (LoadConfig_present o h Hh Hstat).
      rewrite (LoadConfig_present o' h Hh' Hstat').
      cbn [fst snd]. split; [|reflexivity].
      unfold o'. rewrite ReadFile_result, evolves_id. reflexivity.
  - rewrite (LoadConfig_no_home o Hh).
    rewrite (LoadConfig_no_home o' Hh). split; reflexivity.
Qed.

(** X2. Without a home directory nothing is looked up: [LoadConfig]
    returns the error of [os.UserHomeDir], wrapped, without a single call
    to the file system, and every invocation of [main] ends with status 1
    having printed only: the usage lines and the note when no name is
    given, the fatal line on standard error otherwise. *)
Theorem no_home_touches_nothing (args : list string) (o : OS) :
  os_home o = None ->
  let err := wrapError "failed to get user home directory: "
                       (errorString "$HOME is not defined") in
  LoadConfig o = (Err err, o)
  /\ printAvailableEnvironments o = emit (unable_note err) o
  /\ ((length args < 2)%nat ->
      main args o
      = (1, evolves o (os_fs o) (usage_lines ++ [unable_note err])))
  /\ ((2 <= length args)%nat ->
      main args o
      = (1, evolves o (os_fs o)
              [EvStderr ("Failed to load configuration: " +:+ Error err)]))
  /\ fst (main args o) = 1
  /\ os_fs (snd (main args o)) = os_fs o
  /\ exists evs,
       os_trace (snd (main args o)) = os_trace o ++ evs
       /\ Forall (fun e => is_output e = true) evs.
Proof.
  intros Hh err.
  pose proof (LoadConfig_no_home o Hh) as HL. fold err in HL.
  assert (Hshort : (length args < 2)%nat ->
            main args o
            = (1, evolves o (os_fs o) (usage_lines ++ [unable_note err]))).
  { intros Hlen. rewrite (main_no_argument args o Hlen).
    rewrite (printAvailableEnvironments_note _ err _
               (LoadConfig_no_home (evolves o (os_fs o) usage_lines) Hh)).
    rewrite emit_evolves. reflexivity. }
  assert (Hlong : (2 <= length args)%nat ->
            main args o
            = (1, evolves o (os_fs o)
                    [EvStderr ("Failed to load configuration: " +:+ Error err)])).
  { intros Hlen. destruct args as [|prog [|name rest]]; cbn in Hlen; try lia.
    rewrite (main_load_failed prog name rest o err o HL). reflexivity. }
  split; [exact HL|].
  split; [apply printAvailableEnvironments_note; exact HL|].
  split; [exact Hshort|]. split; [exact Hlong|].
  destruct (decide (length args < 2)%nat) as [Hlen|Hlen].
  - rewrite (Hshort Hlen). split; [reflexivity|]. split; [reflexivity|].
    eexists. split; [reflexivity|]. repeat constructor.
  - rewrite (Hlong ltac:(lia)). split; [reflexivity|]. split; [reflexivity|].
    eexists. split; [reflexivity|]. repeat constructor.
Qed.


(** After a refused creation the next load is refused in the same way and
    leaves the files as they are. *)
Lemma LoadConfig_after_refusal o h evs :
  os_home o = Some h ->
  os_IsNotExist (fst (os_Stat (configPathOf h) o)) = true ->
  os_readonly o = true ->
  fst (LoadConfig (evolves o (refused_files o h) evs))
  = Err (wrapError "failed to create default config: " (refused_creation o h))
  /\ os_fs (snd (LoadConfig (evolves o (refused_files o h) evs)))
     = refused_files o h.
Proof.
  intros Hh Hstat Hro.
  set (oX := set_fs (refused_files o h) o).
  change (evolves o (refused_files o h) evs) with (evolves oX (os_fs oX) evs).
  destruct (LoadConfig_frame oX evs) as [-> ->].
  pose proof Hstat as [Hblocked Hfree]%Stat_not_exist.
  rewrite fs_node_lookup in Hfree by apply configPathOf_nonempty.
  assert (Hsame : refused_creation oX h = refused_creation o h
                  /\ refused_files oX h = refused_files o h
                  /\ os_IsNotExist (fst (os_Stat (configPathOf h) oX)) = true).
  { unfold oX, refused_files at 1 3 4.
    destruct (dir_made o h) eqn:Hmade.
    - assert (Hdirs : forall q, q ∈ prefixes (configDirOf h) ->
                with_dirs (os_fs o) (configDirOf h) !! q = Some Dir).
      { intros q Hq. rewrite with_dirs_lookup, decide_True by exact Hq.
        reflexivity. }
      assert (Hall : forallb (fun q => is_dir (fs_node
                        (with_dirs (os_fs o) (configDirOf h)) q))
                       (prefixes (configDirOf h)) = true).
      { apply forallb_forall. intros q Hq%list_elem_of_In.
        rewrite fs_node_lookup
          by (intros ->; apply prefixes_length in Hq; cbn in Hq; lia).
        rewrite (Hdirs q Hq). reflexivity. }
      unfold refused_creation, refused_files, dir_made.
      cbn [os_fs set_fs]. rewrite Hall. cbn [orb].
      change (dir_made o h) with
        (forallb (fun q => is_dir (fs_node (os_fs o) q))
                 (prefixes (configDirOf h)) || negb (os_no_mkdir o)) in Hmade.
      rewrite Hmade.
      split; [reflexivity|]. split; [apply with_dirs_id; exact Hall|].
      apply Stat_not_exist. cbn [os_fs set_fs]. split.
      + apply (blocked_all_dirs _ (configDirOf h) "config.yaml"), Hdirs.
      + rewrite fs_node_lookup by apply configPathOf_nonempty.
        rewrite with_dirs_lookup.
        rewrite decide_False by apply configPathOf_not_prefix. exact Hfree.
    - unfold refused_creation, refused_files, dir_made.
      cbn [os_fs set_fs].
      change (os_no_mkdir (set_fs (os_fs o) o)) with (os_no_mkdir o).
      change (os_errno (set_fs (os_fs o) o)) with (os_errno o).
      change (dir_made o h) with
        (forallb (fun q => is_dir (fs_node (os_fs o) q))
                 (prefixes (configDirOf h)) || negb (os_no_mkdir o)) in Hmade.
      rewrite Hmade.
      split; [reflexivity|]. split; [reflexivity|].
      apply Stat_not_exist. cbn [os_fs set_fs]. split; [exact Hblocked|].
      rewrite fs_node_lookup by apply configPathOf_nonempty. exact Hfree. }
  destruct Hsame as (Hc & Hf & HstatX).
  rewrite (LoadConfig_refused oX h Hh HstatX Hro). cbn [fst snd os_fs evolves].
  rewrite Hc, Hf. split; reflexivity.
Qed.

(** A second load returns what the first returned and leaves the files
    as the first left them. *)
Lemma LoadConfig_twice o :
  fst (LoadConfig (snd (LoadConfig o))) = fst (LoadConfig o)
  /\ os_fs (snd (LoadConfig (snd (LoadConfig o))))
     = os_fs (snd (LoadConfig o)).
Proof.
  destruct (os_home o) as [h|] eqn:Hh.
  - destruct (os_IsNotExist (fst (os_Stat (configPathOf h) o))) eqn:Hstat.
    + destruct (os_readonly o) eqn:Hro.
      * rewrite (LoadConfig_refused o h Hh Hstat Hro). cbn [fst snd].
        apply (LoadConfig_after_refusal o h _ Hh Hstat Hro).
      * rewrite (LoadConfig_creates o h Hh Hstat Hro). cbn [fst snd].
        rewrite (LoadConfig_after_creation o h _ Hh). split; reflexivity.
    + rewrite (LoadConfig_present o h Hh Hstat). cbn [fst snd].
      destruct (LoadConfig_frame o
                  [EvStat (configPathOf h); EvReadFile (configPathOf h)])
        as [Hr Hfs].
      rewrite (LoadConfig_present o h Hh Hstat) in Hr, Hfs.
      split; [exact Hr | exact Hfs].
  - rewrite (LoadConfig_no_home o Hh). cbn [fst snd].
    rewrite (LoadConfig_no_home o Hh). split; reflexivity.
Qed.



(** ** [createDefaultConfig] on its own *)


(** ** [Run] and [main]: what they do besides *)

Lemma Run_cases envConfig o :
  (Strings.Fields (Target envConfig) = []
   /\ snd (Run envConfig o) = o
   /\ (fst (Run envConfig o) = Some EmptyTarget
       \/ fst (Run envConfig o) = Some InvalidTarget))
  \/ (exists command args,
         Strings.Fields (Target envConfig) = command :: args
         /\ Run envConfig o = Cmd_Run (Run_cmd envConfig command args o) o).
Proof.
  unfold Run. destruct (decide (Target envConfig = ""%string)) as [He|Hne].
  - left. rewrite He. split; [reflexivity|]. split; [reflexivity|]. left.
    reflexivity.
  - destruct (Strings.Fields (Target envConfig)) as [|command args].
    + left. split; [reflexivity|]. split; [reflexivity|]. right. reflexivity.
    + right. eauto.
Qed.



(** *** Targets written with ASCII white space *)

Lemma runes_byte_runes (s : string) :
  Forall (fun c => byte_val c < 0x80) (list_ascii_of_string s) ->
  runes s = byte_runes s.
Proof.
  intros Hs. unfold runes, byte_runes, Utf8.range.
  apply range_fuel_ascii; [lia | exact Hs].
Qed.

Lemma byte_runes_app (a b : string) :
  byte_runes (a +:+ b) = byte_runes a ++ byte_runes b.
Proof.
  unfold byte_runes. rewrite list_ascii_of_string_app. apply fmap_app.
Qed.

Lemma rune_bytes_byte_runes (s : string) : rune_bytes (byte_runes s) = s.
Proof.
  unfold rune_bytes, byte_runes.
  rewrite <- (string_of_list_ascii_of_string s) at 2. f_equal.
  induction (list_ascii_of_string s) as [|c l IH]; [reflexivity|].
  cbn. f_equal. exact IH.
Qed.

Lemma blanks_ascii (s : string) :
  blanks s -> Forall (fun c => byte_val c < 0x80) (list_ascii_of_string s).
Proof.
  intros Hs. eapply Forall_impl; [exact Hs|].
  intros c Hc. apply ascii_blank_is_space, Hc.
Qed.

Lemma blanks_space (s : string) :
  blanks s -> Forall (fun x => Strings.is_space x = true) (byte_runes s).
Proof.
  intros Hs. unfold byte_runes. apply Forall_fmap.
  eapply Forall_impl; [exact Hs|]. intros c Hc.
  apply ascii_blank_is_space, Hc.
Qed.

Lemma plain_word_runes (a : string) :
  plain_word a ->
  byte_runes a <> []
  /\ Forall (fun x => Strings.is_space x = false) (byte_runes a).
Proof.
  intros [Hne Hall]. unfold byte_runes. split.
  - destruct a; [congruence | discriminate].
  - apply Forall_fmap. eapply Forall_impl; [exact Hall|]. intros c [_ Hc].
    exact Hc.
Qed.

Lemma blanks_head (s : string) (rest : list Strings.rune) :
  blanks s ->
  s <> ""%string \/ rest = [] ->
  byte_runes s ++ rest = []
  \/ exists x r, byte_runes s ++ rest = x :: r /\ Strings.is_space x = true.
Proof.
  intros Hs Hor. destruct s as [|c s].
  - destruct Hor as [?| ->]; [congruence|]. left. reflexivity.
  - right. unfold blanks in Hs. cbn in Hs. apply Forall_cons in Hs as [Hc _].
    eexists _, _. split; [reflexivity|].
    apply ascii_blank_is_space, Hc.
Qed.

Lemma assemble_ascii parts trailer :
  Forall (fun pw => blanks (fst pw) /\ plain_word (snd pw)) parts ->
  blanks trailer ->
  Forall (fun c => byte_val c < 0x80)
         (list_ascii_of_string (assemble parts trailer)).
Proof.
  intros Hparts Ht. induction Hparts as [|[pad word] rest [Hp [_ Hw]] _ IH];
    cbn [assemble].
  - apply blanks_ascii, Ht.
  - rewrite !list_ascii_of_string_app. rewrite !Forall_app.
    split; [apply blanks_ascii, Hp|]. split; [|exact IH].
    eapply Forall_impl; [exact Hw|]. intros c [Hc _]. exact Hc.
Qed.

Lemma assemble_split parts trailer :
  spaced parts trailer ->
  split_on_space (byte_runes (assemble parts trailer))
                 (byte_runes <$> parts.*2).
Proof.
  intros (Hparts & Hsep & Ht). revert Hsep.
  induction Hparts as [|[pad word] rest [Hp Hw] Hrest IH]; intros Hsep;
    cbn [assemble fmap list_fmap snd].
  - apply split_done, blanks_space, Ht.
  - cbn [tail] in Hsep. rewrite !byte_runes_app.
    destruct (plain_word_runes word Hw) as [Hne Hns].
    apply split_token.
    + apply blanks_space, Hp.
    + exact Hne.
    + exact Hns.
    + destruct rest as [|[pad' word'] rest']; cbn [assemble].
      * rewrite <- (app_nil_r (byte_runes trailer)).
        apply blanks_head; [exact Ht | right; reflexivity].
      * rewrite byte_runes_app. apply blanks_head.
        -- apply Forall_cons in Hrest as [[Hp' _] _]. exact Hp'.
        -- left. apply Forall_cons in Hsep as [Hx _]. exact Hx.
    + apply IH. destruct rest; [constructor|].
      apply Forall_cons in Hsep as [_ Hsep]. exact Hsep.
Qed.

Lemma Fields_assemble parts trailer :
  spaced parts trailer ->
  Strings.Fields (assemble parts trailer) = parts.*2.
Proof.
  intros Hsp.
  destruct (Fields_split (assemble parts trailer)) as (toks & Hsplit & ->).
  rewrite runes_byte_runes in Hsplit
    by (apply assemble_ascii; apply Hsp).
  rewrite (split_on_space_unique _ _ _ Hsplit (assemble_split _ _ Hsp)).
  rewrite <- list_fmap_compose.
  induction (parts.*2) as [|a l IH]; [reflexivity|].
  cbn. rewrite rune_bytes_byte_runes. f_equal. exact IH.
Qed.

(** X8. A target written as words of ASCII characters with any amount of
    ASCII white space before, between and after them is taken apart into
    exactly these words: [Run] starts the first word with the others as
    its arguments, and how much white space there was makes no
    difference. *)
Theorem Run_splits_spaced_target (parts : list (string * string))
    (trailer : string) (vars : gmap string string) (o : OS)
    (command : string) (args : list string) :
  spaced parts trailer ->
  parts.*2 = command :: args ->
  let envConfig := {| Target := assemble parts trailer; Variables := vars |} in
  Strings.Fields (assemble parts trailer) = command :: args
  /\ Run envConfig o = Cmd_Run (Run_cmd envConfig command args o) o
  /\ Path (Run_cmd envConfig command args o) = command
  /\ Args (Run_cmd envConfig command args o) = parts.*2
  /\ (forall parts' trailer',
        spaced parts' trailer' -> parts'.*2 = parts.*2 ->
        Run {| Target := assemble parts' trailer'; Variables := vars |} o
        = Run envConfig o).
Proof.
  intros Hsp Hws envConfig.
  pose proof (Fields_assemble _ _ Hsp) as HF. rewrite Hws in HF.
  split; [exact HF|].
  split; [apply Run_launch; exact HF|].
  split; [apply Run_cmd_Path|].
  split; [rewrite Run_cmd_Args, Hws; reflexivity|].
  intros parts' trailer' Hsp' Hsame.
  pose proof (Fields_assemble _ _ Hsp') as HF'. rewrite Hsame, Hws in HF'.
  rewrite (Run_launch envConfig o command args HF).
  rewrite (Run_launch {| Target := assemble parts' trailer';
                         Variables := vars |} o command args HF').
  reflexivity.
Qed.

Lemma main_cases (args : list string) (o : OS) :
  (fst (main args o) = 1
   /\ ~ (exists prog name rest cfg o1 envConfig,
            args = prog :: name :: rest
            /\ LoadConfig o = (Ok cfg, o1)
            /\ lookupEnvironment cfg name = Some envConfig
            /\ fst (Run envConfig o1) = None)
   /\ exists fs' evs,
        snd (main args o) = evolves o fs' evs
        /\ (started evs = [] \/ exists cmd, started evs = [cmd]))
  \/ (fst (main args o) = 0
      /\ (exists prog name rest cfg o1 envConfig,
             args = prog :: name :: rest
             /\ LoadConfig o = (Ok cfg, o1)
             /\ lookupEnvironment cfg name = Some envConfig
             /\ fst (Run envConfig o1) = None)
      /\ exists fs' evs,
           snd (main args o) = evolves o fs' evs
           /\ (exists cmd, started evs = [cmd])
           /\ Forall (fun e => is_stderr e = false) evs).
Proof.
  assert (Hshort : (length args < 2)%nat ->
            fst (main args o) = 1
            /\ ~ (exists prog name rest cfg o1 envConfig,
                     args = prog :: name :: rest
                     /\ LoadConfig o = (Ok cfg, o1)
                     /\ lookupEnvironment cfg name = Some envConfig
                     /\ fst (Run envConfig o1) = None)
            /\ exists fs' evs,
                 snd (main args o) = evolves o fs' evs
                 /\ (started evs = [] \/ exists cmd, started evs = [cmd])).
  { intros Hlen. rewrite (main_no_argument args o Hlen). cbn [fst snd].
    split; [reflexivity|]. split.
    - intros (prog & name & rest & ? & ? & ? & -> & _). cbn in Hlen. lia.
    - destruct (printAvailableEnvironments_events
                  (evolves o (os_fs o) usage_lines)) as (evs & -> & _ & Hn).
      rewrite evolves_evolves. eexists _, _. split; [reflexivity|]. left.
      unfold started in *. rewrite omap_app, Hn. reflexivity. }
  destruct args as [|prog [|name rest]].
  - left. apply Hshort. cbn. lia.
  - left. apply Hshort. cbn. lia.
  - clear Hshort.
    destruct (LoadConfig_events o) as (fs1 & evs1 & Hs1 & Hq1 & Hn1).
    destruct (LoadConfig o) as [[cfg|err] o1] eqn:HL; cbn [snd] in Hs1;
      subst o1.
    + destruct (lookupEnvironment cfg name) as [envConfig|] eqn:Hl.
      * destruct (Run_cases envConfig (evolves o fs1 evs1))
          as [(HF & Hst & He) | (command & cargs & HF & HR)].
        -- left.
           destruct (Run envConfig (evolves o fs1 evs1)) as [[rerr|] o2]
             eqn:HRun; cbn [fst snd] in *;
             [|destruct He; discriminate].
           rewrite (main_run_failed prog name rest o cfg _ envConfig rerr o2
                      HL Hl HRun). cbn [fst snd].
           split; [reflexivity|]. split.
           ++ intros (? & ? & ? & ? & ? & ? & Hargs & HL' & Hl' & HR').
              simplify_eq. rewrite HRun in HR'. discriminate.
           ++ subst o2. unfold log_Fatalf. rewrite emit_evolves.
              eexists _, _. split; [reflexivity|]. left.
              unfold started in *. rewrite omap_app, Hn1. reflexivity.
        -- assert (Hone : exists cmd, started (evs1 ++
                     [EvRun (Run_cmd envConfig command cargs (evolves o fs1 evs1))
                        (Cmd_environ (os_Environ (evolves o fs1 evs1))
                           (Run_cmd envConfig command cargs
                              (evolves o fs1 evs1)))])
                     = [cmd]).
           { eexists. unfold started in *. rewrite omap_app, Hn1.
             reflexivity. }
           destruct (Run envConfig (evolves o fs1 evs1)) as [[rerr|] o2]
             eqn:HRun; unfold Cmd_Run in HR;
             pose proof (f_equal snd HR) as Ho2; cbn [snd] in Ho2; subst o2.
           ++ left.
              rewrite (main_run_failed prog name rest o cfg _ envConfig rerr _
                         HL Hl HRun). cbn [fst snd].
              split; [reflexivity|]. split.
              ** intros (? & ? & ? & ? & ? & ? & Hargs & HL' & Hl' & HR').
                 simplify_eq. rewrite HRun in HR'. discriminate.
              ** unfold log_Fatalf. rewrite !emit_evolves.
                 eexists _, _. split; [reflexivity|]. right.
                 destruct Hone as [cmd Hone]. exists cmd.
                 unfold started in *. rewrite omap_app, Hone. reflexivity.
           ++ right.
              rewrite (main_run_ok prog name rest o cfg _ envConfig _
                         HL Hl HRun). cbn [fst snd].
              split; [reflexivity|]. split.
              ** exists prog, name, rest, cfg, (evolves o fs1 evs1), envConfig.
                 rewrite HRun. auto.
              ** rewrite emit_evolves. eexists _, _. split; [reflexivity|].
                 split; [exact Hone|].
                 apply Forall_app. split; [exact Hq1 | repeat constructor].
      * left. rewrite (main_not_found prog name rest o cfg _ HL Hl).
        cbn [fst snd]. split; [reflexivity|]. split.
        -- intros (? & ? & ? & ? & ? & ? & Hargs & HL' & Hl' & HR').
           simplify_eq.
        -- rewrite evolves_evolves.
           change (os_fs (evolves o fs1 evs1)) with fs1.
           destruct (printAvailableEnvironments_events
                       (evolves o fs1 (evs1 ++ not_found_lines name)))
             as (evs & -> & _ & Hn).
           rewrite evolves_evolves. eexists _, _. split; [reflexivity|].
           left. unfold started in *. rewrite !omap_app, Hn1, Hn.
           reflexivity.
    + left. rewrite (main_load_failed prog name rest o err _ HL).
      cbn [fst snd]. split; [reflexivity|]. split.
      * intros (? & ? & ? & ? & ? & ? & Hargs & HL' & _). simplify_eq.
      * unfold log_Fatalf. rewrite emit_evolves. eexists _, _.
        split; [reflexivity|]. left.
        unfold started in *. rewrite omap_app, Hn1. reflexivity.
Qed.

(** X9. What [main] returns and starts.  The exit status is 0 or 1, and it
    is 0 exactly when a name is given, the configuration loads, the name is
    defined and [Run] returns no error; the status of the child is not
    passed on.  An invocation starts at most one command, one that ends
    with status 0 has started exactly one and has written nothing to
    standard error, and only the first argument is looked at. *)
Theorem main_exit_zero_iff (args : list string) (o : OS) :
  (fst (main args o) = 0 \/ fst (main args o) = 1)
  /\ (fst (main args o) = 0
      <-> exists prog name rest cfg o1 envConfig,
            args = prog :: name :: rest
            /\ LoadConfig o = (Ok cfg, o1)
            /\ lookupEnvironment cfg name = Some envConfig
            /\ fst (Run envConfig o1) = None)
  /\ (exists fs' evs,
         snd (main args o) = evolves o fs' evs
         /\ (started evs = [] \/ exists cmd, started evs = [cmd])
         /\ (fst (main args o) = 0 ->
             (exists cmd, started evs = [cmd])
             /\ Forall (fun e => is_stderr e = false) evs))
  /\ (forall prog prog' name rest rest',
        main (prog :: name :: rest) o = main (prog' :: name :: rest') o).
Proof.
  destruct (main_cases args o)
    as [(H1 & Hns & fs' & evs & Hs & Hst)
       | (H0 & Hsucc & fs' & evs & Hs & Hone & Hq)].
  - split; [right; exact H1|]. split.
    { rewrite H1. split; [discriminate | intros Hsucc; contradiction]. }
    split; [|reflexivity].
    exists fs', evs. split; [exact Hs|]. split; [exact Hst|].
    rewrite H1. discriminate.
  - split; [left; exact H0|]. split.
    { split; [intros _; exact Hsucc | intros _; exact H0]. }
    split; [|reflexivity].
    exists fs', evs. split; [exact Hs|]. split; [right; exact Hone|].
    intros _. split; [exact Hone | exact Hq].
Qed.

(** ** What is printed and what is left behind *)

Lemma Run_fs envConfig o : os_fs (snd (Run envConfig o)) = os_fs o.
Proof.
  destruct (Run_cases envConfig o) as [(_ & -> & _) | (c & a & _ & ->)];
    reflexivity.
Qed.

Lemma LoadConfig_twice_fs o :
  os_fs (snd (LoadConfig (snd (LoadConfig o)))) = os_fs (snd (LoadConfig o)).
Proof. apply LoadConfig_twice. Qed.


(** X13. Whatever the arguments, the files after [main] are the files
    after one [LoadConfig]: the second load that lists the environments
    adds nothing, and neither printing nor starting the command changes a
    file (what the started command does itself is not followed). *)
Theorem main_files (args : list string) (o : OS) :
  os_fs (snd (main args o)) = os_fs (snd (LoadConfig o)).
Proof.
  destruct args as [|prog [|name rest]].
  1,2: rewrite main_no_argument by (cbn; lia); cbn [snd];
    destruct (printAvailableEnvironments_after_load
                (evolves o (os_fs o) usage_lines)) as [-> _];
    apply LoadConfig_frame.
  pose proof (LoadConfig_twice_fs o) as Htwice.
  destruct (LoadConfig o) as [[cfg|err] o1] eqn:HL; cbn [snd] in *.
  - destruct (lookupEnvironment cfg name) as [envConfig|] eqn:Hl.
    + pose proof (Run_fs envConfig o1) as Hfs.
      destruct (Run envConfig o1) as [[rerr|] o2] eqn:HRun; cbn [snd] in Hfs.
      * rewrite (main_run_failed prog name rest o cfg o1 envConfig rerr o2
                   HL Hl HRun). exact Hfs.
      * rewrite (main_run_ok prog name rest o cfg o1 envConfig o2 HL Hl HRun).
        exact Hfs.
    + rewrite (main_not_found prog name rest o cfg o1 HL Hl). cbn [snd].
      destruct (printAvailableEnvironments_after_load
                  (evolves o1 (os_fs o1) (not_found_lines name))) as [-> _].
      destruct (LoadConfig_frame o1 (not_found_lines name)) as [_ ->].
      exact Htwice.
  - rewrite (main_load_failed prog name rest o err o1 HL). reflexivity.
Qed.

End Program.

(** ** The YAML fragment: the fuel is enough *)

Lemma parse_block_rest fuel n ls es rem :
  Yaml.parse_block fuel n ls = Ok (es, rem) -> (length rem <= length ls)%nat.
Proof.
  revert n ls es rem. induction fuel as [|fuel IH]; intros n ls es rem; cbn [Yaml.parse_block].
  - discriminate.
  - destruct ls as [|l ls']; [intros H; inversion H; subst; cbn; lia|].
    destruct (Yaml.indent l <? n)%nat; [intros H; inversion H; subst; cbn; lia|].
    destruct (n <? Yaml.indent l)%nat; [discriminate|].
    assert (Hcont : forall v ls1,
               (length ls1 <= length ls')%nat ->
               match Yaml.parse_block fuel n ls1 with
               | Ok (more, rem0) => Ok ((Yaml.key l, v) :: more, rem0)
               | Err e => Err e
               end = Ok (es, rem) -> (length rem <= length (l :: ls'))%nat).
    { intros v ls1 Hlen.
      destruct (Yaml.parse_block fuel n ls1) as [[more rem0]|] eqn:Hp;
        [|discriminate].
      intros H; inversion H; subst. apply IH in Hp. cbn. lia. }
    destruct (Yaml.rest l).
    + destruct ls' as [|l2 ls2]; [apply Hcont; lia|].
      destruct (n <? Yaml.indent l2)%nat; [|apply Hcont; lia].
      destruct (Yaml.parse_block fuel (Yaml.indent l2) (l2 :: ls2))
        as [[sub rem1]|] eqn:Hsub; [|discriminate].
      apply IH in Hsub. apply Hcont. exact Hsub.
    + destruct (Yaml.deeper n ls'); [discriminate | apply Hcont; lia].
    + destruct (Yaml.deeper n ls'); [discriminate | apply Hcont; lia].
Qed.

Lemma parse_block_fuel fuel n ls :
  (length ls < fuel)%nat ->
  Yaml.parse_block fuel n ls <> Err Yaml.out_of_fuel.
Proof.
  revert n ls. induction fuel as [|fuel IH]; intros n ls Hlen; [lia|].
  cbn [Yaml.parse_block]. destruct ls as [|l ls']; [discriminate|]. cbn in Hlen.
  destruct (Yaml.indent l <? n)%nat; [discriminate|].
  destruct (n <? Yaml.indent l)%nat; [intros [= H]; vm_compute in H; discriminate|].
  assert (Hcont : forall v ls1,
             (length ls1 <= length ls')%nat ->
             match Yaml.parse_block fuel n ls1 with
             | Ok (more, rem0) => Ok ((Yaml.key l, v) :: more, rem0)
             | Err e => Err e
             end <> Err Yaml.out_of_fuel).
  { intros v ls1 Hl.
    destruct (Yaml.parse_block fuel n ls1) as [[more rem0]|e] eqn:Hp;
      [discriminate|].
    intros [= ->]. revert Hp. apply IH. lia. }
  destruct (Yaml.rest l).
  - destruct ls' as [|l2 ls2]; [apply Hcont; lia|].
    destruct (n <? Yaml.indent l2)%nat; [|apply Hcont; lia].
    destruct (Yaml.parse_block fuel (Yaml.indent l2) (l2 :: ls2))
      as [[sub rem1]|e] eqn:Hsub.
    + apply parse_block_rest in Hsub. apply Hcont. exact Hsub.
    + intros [= ->]. revert Hsub. apply IH. cbn in *. lia.
  - destruct (Yaml.deeper n ls');
      [intros [= H]; vm_compute in H; discriminate | apply Hcont; lia].
  - destruct (Yaml.deeper n ls');
      [intros [= H]; vm_compute in H; discriminate | apply Hcont; lia].
Qed.

(** ** The default configuration file *)

Lemma range_in_map_order_perm (V : Type) (m : gmap string V) :
  range_in_map_order V m ≡ₚ map_to_list m.
Proof. reflexivity. Qed.

Lemma default_config_parses : Yaml.Unmarshal defaultConfig = Ok default_Config.
Proof. vm_compute. reflexivity. Qed.

Lemma glm_default_size : size (Variables glm_default) = 9%nat.
Proof. vm_compute. reflexivity. Qed.

Lemma decode_loaded_default :
  decode_loaded Yaml.Unmarshal (Ok defaultConfig) = Ok default_Config.
Proof. unfold decode_loaded. rewrite default_config_parses. reflexivity. Qed.

(** A first run on a file system that takes changes. *)
Lemma LoadConfig_creates_default o h :
  os_home o = Some h ->
  os_IsNotExist (fst (os_Stat (configPathOf h) o)) = true ->
  os_readonly o = false ->
  LoadConfig Yaml.Unmarshal o
  = (Ok default_Config,
     evolves o (with_default_config (os_fs o) h)
       ([EvStat (configPathOf h); EvMkdirAll (configDirOf h);
         EvWriteFile (configPathOf h) defaultConfig]
        ++ created_notice (configPathOf h)
        ++ [EvReadFile (configPathOf h)])).
Proof.
  intros Hh Hstat Hrw.
  rewrite (LoadConfig_creates Yaml.Unmarshal o h Hh Hstat Hrw).
  rewrite decode_loaded_default. reflexivity.
Qed.

(** C3, as the code has it.  The default file parses to a single
    environment, [glm], whose target is [claude] and which sets nine
    variables.  When the file is missing, every configuration that
    [LoadConfig] returns is this one, with the file and its default
    content then on disk; and on a file system that takes the change
    [LoadConfig] does return it. *)
Theorem default_config_defines_glm (o : OS) (h : path) :
  os_home o = Some h ->
  os_IsNotExist (fst (os_Stat (configPathOf h) o)) = true ->
  default_variable_count 9
  /\ Yaml.Unmarshal defaultConfig = Ok default_Config
  /\ Target glm_default = "claude"%string
  /\ lookupEnvironment default_Config "glm" = Some glm_default
  /\ dom (default ∅ (Environments default_Config)) = {[ "glm"%string ]}
  /\ (forall cfg o',
        LoadConfig Yaml.Unmarshal o = (Ok cfg, o') ->
        cfg = default_Config
        /\ os_fs o' = with_default_config (os_fs o) h
        /\ os_fs o' !! configPathOf h = Some (File defaultConfig))
  /\ (os_readonly o = false ->
      exists o', LoadConfig Yaml.Unmarshal o = (Ok default_Config, o')).
Proof.
  intros Hh Hstat.
  split; [exists glm_default; split;
          [exact default_config_parses | exact glm_default_size]|].
  split; [exact default_config_parses|].
  split; [reflexivity|].
  split; [apply lookup_singleton_eq|].
  split; [apply dom_singleton_L|].
  split.
  - intros cfg o' HL. destruct (os_readonly o) eqn:Hro.
    + destruct (LoadConfig_readonly Yaml.Unmarshal o h Hh Hstat Hro)
        as (e & fs' & evs & HL' & _).
      rewrite HL' in HL. discriminate.
    + rewrite (LoadConfig_creates_default o h Hh Hstat Hro) in HL.
      injection HL as <- <-. cbn [os_fs evolves].
      split; [reflexivity|]. split; [reflexivity|].
      apply with_default_config_file.
  - intros Hro. eexists. exact (LoadConfig_creates_default o h Hh Hstat Hro).
Qed.

(** C3 as stated fails: the single environment of the default file sets
    nine variables, not eight. *)
Lemma default_config_not_eight_variables : ~ default_variable_count 8.
Proof.
  intros (e & He & Hn). rewrite default_config_parses in He.
  apply (f_equal (fun r => match r with
                           | Ok {| Environments := Some m |} =>
                             m !! "glm"%string
                           | _ => None
                           end)) in He.
  unfold default_Config in He.
  rewrite !lookup_singleton_eq in He. injection He as <-.
  rewrite glm_default_size in Hn. discriminate.
Qed.

Lemma default_config_defines_glm_witness :
  os_home os_first_run = Some home_user
  /\ os_IsNotExist (fst (os_Stat (configPathOf home_user) os_first_run)) = true
  /\ default_variable_count 9
  /\ exists o',
       LoadConfig Yaml.Unmarshal os_first_run = (Ok default_Config, o')
       /\ os_fs o' !! configPathOf home_user = Some (File defaultConfig).
Proof.
  assert (Hh : os_home os_first_run = Some home_user) by reflexivity.
  assert (Hstat : os_IsNotExist
                    (fst (os_Stat (configPathOf home_user) os_first_run)) = true)
    by (vm_compute; reflexivity).
  destruct (default_config_defines_glm os_first_run home_user Hh Hstat)
    as (Hnine & _ & _ & _ & _ & Hany & Hrw).
  destruct (Hrw eq_refl) as [o' HL].
  destruct (Hany _ _ HL) as (_ & _ & Hfile).
  split; [exact Hh|]. split; [exact Hstat|]. split; [exact Hnine|].
  exists o'. split; assumption.
Defined.

(** ** The environment of the child: a name with an equals sign *)



(** A value that holds a NUL byte: [Cmd.Run] refuses the environment and
    [Run] returns its error. *)
Example Run_refuses_NUL :
  fst (Run range_in_map_order env_NUL_value os_first_run) = Some ErrNUL.
Proof. vm_compute. reflexivity. Qed.

(** ** The model at work *)

Lemma LoadConfig_empty_environments_witness :
  os_home (os_with_config "environments:") = Some home_user
  /\ fst (os_ReadFile (configPathOf home_user) (os_with_config "environments:"))
     = Ok "environments:"%string
  /\ Yaml.Unmarshal "environments:" = Ok {| Environments := None |}
  /\ exists cfg o' m,
       LoadConfig Yaml.Unmarshal (os_with_config "environments:") = (Ok cfg, o')
       /\ Environments cfg = Some m /\ size m = 0%nat.
Proof.
  assert (Hh : os_home (os_with_config "environments:") = Some home_user)
    by reflexivity.
  assert (Hread : fst (os_ReadFile (configPathOf home_user)
                         (os_with_config "environments:"))
                  = Ok "environments:"%string)
    by (vm_compute; reflexivity).
  assert (Hparse : Yaml.Unmarshal "environments:" = Ok {| Environments := None |})
    by (vm_compute; reflexivity).
  destruct (LoadConfig_empty_environments Yaml.Unmarshal
              (os_with_config "environments:") home_user "environments:"
              {| Environments := None |} Hh Hread Hparse (or_introl eq_refl))
    as [(cfg & o' & m & HL & Hm & Hsize & _) _].
  split; [exact Hh|]. split; [exact Hread|]. split; [exact Hparse|].
  exists cfg, o', m. auto.
Defined.

Lemma LoadConfig_keeps_existing_file_witness :
  os_home (os_with_config two_environments) = Some home_user
  /\ fst (os_Stat (configPathOf home_user) (os_with_config two_environments))
     = None
  /\ os_fs (snd (LoadConfig Yaml.Unmarshal (os_with_config two_environments)))
     = os_fs (os_with_config two_environments)
  /\ os_trace (snd (LoadConfig Yaml.Unmarshal (os_with_config two_environments)))
     = [EvStat (configPathOf home_user); EvReadFile (configPathOf home_user)].
Proof.
  assert (Hh : os_home (os_with_config two_environments) = Some home_user)
    by reflexivity.
  assert (Hstat : fst (os_Stat (configPathOf home_user)
                         (os_with_config two_environments)) = None)
    by (vm_compute; reflexivity).
  destruct (LoadConfig_keeps_existing_file Yaml.Unmarshal
              (os_with_config two_environments) home_user Hh)
    as [Hkeep _].
  destruct (Hkeep Hstat) as (Hstate & Hfs & _).
  split; [exact Hh|]. split; [exact Hstat|]. split; [exact Hfs|].
  rewrite Hstate. reflexivity.
Defined.

(** The documented scenario: two environments are loaded, [testenv] is
    found with its target and variable, and a name in other case is not. *)
Lemma lookup_exact_and_names_complete_witness :
  (forall (V : Type) (m : gmap string V),
      range_in_map_order V m ≡ₚ map_to_list m)
  /\ exists loaded o',
       LoadConfig Yaml.Unmarshal (os_with_config two_environments)
       = (Ok loaded, o')
       /\ size (default ∅ (Environments loaded)) = 2%nat
       /\ length (listNames range_in_map_order loaded) = 2%nat
       /\ lookupEnvironment loaded "testenv"
          = Some {| Target := "echo hello";
                    Variables := {[ "TEST_VAR"%string := "test_value"%string ]} |}
       /\ lookupEnvironment loaded "TestEnv" = None
       /\ ("TestEnv"%string ∉ listNames range_in_map_order loaded).
Proof.
  split; [exact range_in_map_order_perm|].
  assert (Hparse : exists parsed,
             Yaml.Unmarshal two_environments = Ok parsed
             /\ size (default ∅ (Environments parsed)) = 2%nat
             /\ lookupEnvironment parsed "testenv"
                = Some {| Target := "echo hello";
                          Variables := {[ "TEST_VAR"%string := "test_value"%string ]} |}
             /\ lookupEnvironment parsed "TestEnv" = None).
  { eexists. split; [vm_compute; reflexivity|].
    repeat split; vm_compute; reflexivity. }
  destruct Hparse as (parsed & Hparse & Hsize & Hfound & Hnone).
  pose proof (lookup_exact_and_names_complete Yaml.Unmarshal
                range_in_map_order range_in_map_order_perm) as Hthm.
  destruct (Hthm parsed) as (_ & _ & _ & _ & Hload).
  destruct (Hload (os_with_config two_environments) home_user two_environments
              parsed eq_refl ltac:(vm_compute; reflexivity) Hparse)
    as (loaded & o' & HL & Hsame & _ & Hlen & _).
  exists loaded, o'.
  assert (Hl : forall name,
             lookupEnvironment loaded name = lookupEnvironment parsed name).
  { intros name. unfold lookupEnvironment. rewrite Hsame. reflexivity. }
  split; [exact HL|].
  split; [rewrite Hsame; exact Hsize|].
  split; [rewrite Hlen; exact Hsize|].
  split; [rewrite Hl; exact Hfound|].
  split; [rewrite Hl; exact Hnone|].
  destruct (Hthm loaded) as (_ & Hnot & _).
  apply Hnot. rewrite Hl. exact Hnone.
Defined.

(** A target with quotes and a dollar sign: the fields are cut at the
    blanks, whatever stands between them. *)
Lemma Run_tokenizes_witness :
  Strings.Fields "sh -c 'echo  $HOME' *"
  = ["sh"; "-c"; "'echo"; "$HOME'"; "*"]%string
  /\ Run range_in_map_order
         {| Target := "sh -c 'echo  $HOME' *"; Variables := ∅ |} os_first_run
     = (None,
        emit (EvRun {| Path := "sh";
                       Args := ["sh"; "-c"; "'echo"; "$HOME'"; "*"]%string;
                       Env := None;
                       Stdin := true; Stdout := true; Stderr := true |}
                    environ_user) os_first_run).
Proof.
  assert (HF : Strings.Fields
                 (Target {| Target := "sh -c 'echo  $HOME' *"; Variables := ∅ |})
               = ["sh"; "-c"; "'echo"; "$HOME'"; "*"]%string)
    by (vm_compute; reflexivity).
  split; [exact HF|].
  pose proof (Run_tokenizes range_in_map_order
                {| Target := "sh -c 'echo  $HOME' *"; Variables := ∅ |}
                os_first_run "sh" ["-c"; "'echo"; "$HOME'"; "*"]%string HF) as H.
  cbv zeta in H. destruct H as (HR & _).
  rewrite HR. reflexivity.
Defined.

(** A first run without an argument, and one with an unknown name. *)
Lemma listing_creates_default_config_witness :
  os_home os_first_run = Some home_user
  /\ os_IsNotExist (fst (os_Stat (configPathOf home_user) os_first_run)) = true
  /\ fst (main Yaml.Unmarshal range_in_map_order ["cs"%string] os_first_run) = 1
  /\ os_fs (snd (main Yaml.Unmarshal range_in_map_order ["cs"%string]
                      os_first_run))
       !! configPathOf home_user = Some (File defaultConfig)
  /\ os_fs (snd (main Yaml.Unmarshal range_in_map_order ["cs"%string]
                      os_first_run))
       !! configDirOf home_user = Some Dir
  /\ fst (main Yaml.Unmarshal range_in_map_order ["cs"; "nope"]%string
               os_first_run) = 1
  /\ os_fs (snd (main Yaml.Unmarshal range_in_map_order ["cs"; "nope"]%string
                      os_first_run))
       !! configPathOf home_user = Some (File defaultConfig).
Proof.
  assert (Hh : os_home os_first_run = Some home_user) by reflexivity.
  assert (Hstat : os_IsNotExist
                    (fst (os_Stat (configPathOf home_user) os_first_run)) = true)
    by (vm_compute; reflexivity).
  pose proof (listing_creates_default_config Yaml.Unmarshal range_in_map_order
                os_first_run home_user Hh Hstat) as H.
  cbv zeta in H. destruct H as (Hdir & Hfile & Hzero & Hmiss).
  destruct (Hzero ["cs"%string] ltac:(cbn; lia)) as (Hmain & _ & Hrw).
  destruct (Hrw eq_refl) as [Hfs _].
  pose proof (Hmiss "cs"%string "nope"%string [] default_Config _
                (LoadConfig_creates_default os_first_run home_user
                   Hh Hstat eq_refl)
                ltac:(vm_compute; reflexivity)) as Hnf.
  split; [exact Hh|]. split; [exact Hstat|].
  split; [rewrite Hmain; reflexivity|].
  split; [rewrite Hfs; exact Hfile|].
  split; [rewrite Hfs; exact Hdir|].
  split; [rewrite Hnf; reflexivity|].
  rewrite Hnf. exact Hfile.
Defined.

(** Without a home directory the listing prints the note and [main] exits
    with 1. *)
Lemma listing_swallows_load_error_witness :
  LoadConfig Yaml.Unmarshal (evolves os_no_home (os_fs os_no_home) usage_lines)
  = (Err (wrapError "failed to get user home directory: "
                    (errorString "$HOME is not defined")),
     evolves os_no_home (os_fs os_no_home) usage_lines)
  /\ main Yaml.Unmarshal range_in_map_order ["cs"%string] os_no_home
     = (1, {| os_home := None; os_environ := []; os_fs := fs_home;
              os_refusal := accepts_changes; os_lookPath := lookPath_finds;
              os_spawn := child_succeeds;
              os_trace :=
                [EvStdout "Usage: cs <environment>";
                 EvStdout "Available environments:";
                 EvStdout "  (Unable to load config: failed to get user home directory: $HOME is not defined)"] |}).
Proof.
  assert (HL : LoadConfig Yaml.Unmarshal
                 (evolves os_no_home (os_fs os_no_home) usage_lines)
               = (Err (wrapError "failed to get user home directory: "
                                 (errorString "$HOME is not defined")),
                  evolves os_no_home (os_fs os_no_home) usage_lines))
    by reflexivity.
  split; [exact HL|].
  destruct (listing_swallows_load_error Yaml.Unmarshal range_in_map_order
              _ _ _ HL) as (_ & _ & Hmain & _).
  destruct (Hmain ["cs"%string] os_no_home ltac:(cbn; lia) eq_refl) as [-> _].
  reflexivity.
Defined.

(** Decoding: one byte, two, three and four bytes, and a byte that starts
    nothing. *)
Example DecodeRune_examples :
  Utf8.DecodeRune (list_ascii_of_string "a") = (0x61, 1%nat)
  /\ Utf8.DecodeRune ["195"; "169"]%char = (0xE9, 2%nat)
  /\ Utf8.DecodeRune ["226"; "130"; "172"]%char = (0x20AC, 3%nat)
  /\ Utf8.DecodeRune ["240"; "159"; "152"; "128"]%char = (0x1F600, 4%nat)
  /\ Utf8.DecodeRune ["226"; "130"]%char = (Utf8.RuneError, 1%nat)
  /\ Utf8.DecodeRune ["128"; "097"]%char = (Utf8.RuneError, 1%nat).
Proof. repeat split; vm_compute; reflexivity. Qed.

(** Fields: blanks, tabs and line ends, and the white space beyond ASCII
    (U+00A0 is the bytes 194 160, U+3000 the bytes 227 128 128). *)
Example Fields_examples :
  Strings.Fields "echo hello world" = ["echo"; "hello"; "world"]%string
  /\ Strings.Fields "   " = []
  /\ Strings.Fields (String "009" " a" +:+ String "010" "b  c"
                     +:+ String "013" "")
     = ["a"; "b"; "c"]%string
  /\ Strings.Fields ("a" +:+ String "194" (String "160" "b")
                     +:+ String "227" (String "128" (String "128" "c")))
     = ["a"; "b"; "c"]%string
  /\ Strings.Fields (String "194" (String "160" "")) = [].
Proof. repeat split; vm_compute; reflexivity. Qed.

(** The three targets the specification singles out. *)
Example Run_examples :
  Run range_in_map_order {| Target := ""; Variables := ∅ |} os_first_run
  = (Some EmptyTarget, os_first_run)
  /\ Run range_in_map_order {| Target := "   "; Variables := ∅ |} os_first_run
     = (Some InvalidTarget, os_first_run)
  /\ fst (Run range_in_map_order
              {| Target := "echo hello world"; Variables := ∅ |} os_first_run)
     = None.
Proof. repeat split; vm_compute; reflexivity. Qed.

(** The exit status of [main] on the default configuration: the known
    name with a command that runs, the same with a command that cannot be
    started, an unknown name, no argument, and a file that does not
    parse. *)
Example main_examples :
  fst (main Yaml.Unmarshal range_in_map_order ["cs"; "glm"]%string
            (os_with_config defaultConfig)) = 0
  /\ main Yaml.Unmarshal range_in_map_order ["cs"; "glm"]%string
          (os_without_commands "environments: {}")
     = (1, evolves (os_without_commands "environments: {}")
             (os_fs (os_without_commands "environments: {}"))
             ([EvStat (configPathOf home_user);
               EvReadFile (configPathOf home_user)]
              ++ not_found_lines "glm"
              ++ [EvStat (configPathOf home_user);
                  EvReadFile (configPathOf home_user)]))
  /\ fst (main Yaml.Unmarshal range_in_map_order ["cs"; "glm"]%string
               (os_without_commands defaultConfig)) = 1
  /\ last (os_trace (snd (main Yaml.Unmarshal range_in_map_order
                               ["cs"; "glm"]%string
                               (os_without_commands defaultConfig))))
     = Some (EvStderr ("Failed to run command: exec: " +:+ quoted "claude"
                       +:+ ": executable file not found in $PATH"))
  /\ fst (main Yaml.Unmarshal range_in_map_order ["cs"%string]
               (os_with_config defaultConfig)) = 1
  /\ last (os_trace (snd (main Yaml.Unmarshal range_in_map_order ["cs"%string]
                               (os_with_config defaultConfig))))
     = Some (EvStdout "  glm")
  /\ fst (main Yaml.Unmarshal range_in_map_order ["cs"; "glm"]%string
               (os_with_config "environments: [")) = 1
  /\ is_stderr <$> last (os_trace (snd (main Yaml.Unmarshal range_in_map_order
                                              ["cs"; "glm"]%string
                                              (os_with_config "environments: ["))))
     = Some true.
Proof. repeat split; vm_compute; reflexivity. Qed.

(** A file without an [environments] key, one where it is null and one
    where it is an empty mapping: each loads to a map that is there and
    empty. *)
Example LoadConfig_empty_examples :
  Yaml.Unmarshal "other: 1" = Ok {| Environments := None |}
  /\ Yaml.Unmarshal "environments:" = Ok {| Environments := None |}
  /\ Yaml.Unmarshal "environments: {}" = Ok {| Environments := Some ∅ |}
  /\ fst (LoadConfig Yaml.Unmarshal (os_with_config "other: 1"))
     = Ok {| Environments := Some ∅ |}
  /\ fst (LoadConfig Yaml.Unmarshal (os_with_config "environments:"))
     = Ok {| Environments := Some ∅ |}
  /\ fst (LoadConfig Yaml.Unmarshal (os_with_config "environments: {}"))
     = Ok {| Environments := Some ∅ |}
  /\ fst (LoadConfig Yaml.Unmarshal (os_with_config ""))
     = Ok {| Environments := Some ∅ |}.
Proof. repeat split; vm_compute; reflexivity. Qed.

(** A first run on a file system that refuses every change: the creation
    is tried and fails, [LoadConfig] returns the error, the listing prints
    it in its note, and there is no file afterwards. *)
Example first_run_readonly :
  fst (LoadConfig Yaml.Unmarshal os_first_run_readonly)
  = Err (wrapError "failed to create default config: "
           (wrapError "failed to create config directory: "
              (PathError "mkdir" (configDirOf home_user) EROFS)))
  /\ main Yaml.Unmarshal range_in_map_order ["cs"%string] os_first_run_readonly
     = (1, evolves os_first_run_readonly fs_home
             (usage_lines
              ++ [EvStat (configPathOf home_user);
                  EvMkdirAll (configDirOf home_user);
                  unable_note
                    (wrapError "failed to create default config: "
                       (wrapError "failed to create config directory: "
                          (PathError "mkdir" (configDirOf home_user) EROFS)))]))
  /\ fs_home !! configPathOf home_user = None.
Proof. repeat split; vm_compute; reflexivity. Qed.

(** * Further properties, continued *)

Lemma range_reversed_perm (V : Type) (m : gmap string V) :
  range_reversed V m ≡ₚ map_to_list m.
Proof. unfold range_reversed. symmetry. apply Permutation_rev. Qed.

Lemma glm_default_plain :
  forall k, k ∈ dom (Variables glm_default) -> plain_name k.
Proof.
  apply (bool_decide_unpack (set_Forall plain_name (dom (Variables glm_default)))).
  vm_compute. exact I.
Qed.

Lemma glm_default_clean :
  forall k v, Variables glm_default !! k = Some v ->
    has_NUL k = false /\ has_NUL v = false.
Proof.
  apply (bool_decide_unpack
           (map_Forall (fun k v => has_NUL k = false /\ has_NUL v = false)
                       (Variables glm_default))).
  vm_compute. exact I.
Qed.

Lemma existsb_Permutation {A} (f : A -> bool) (l1 l2 : list A) :
  l1 ≡ₚ l2 -> existsb f l1 = existsb f l2.
Proof.
  induction 1 as [|x l1 l2 _ IH|x y l|l1 l2 l3 _ IH1 _ IH2]; cbn [existsb].
  - reflexivity.
  - rewrite IH. reflexivity.
  - destruct (f x), (f y); reflexivity.
  - rewrite IH1. exact IH2.
Qed.

(** X10. What the order in which Go visits the variables changes.  For
    names without ['='], any two orders make [Run] hand [os/exec] the
    same entries, the inherited ones first and in their order, the
    configured ones after them in the order of the visit; [Cmd.Run]
    refuses the one list exactly when it refuses the other; and when no
    entry holds a NUL byte the child is given the same value for every
    variable.  Only the order of the entries in its list can differ. *)
Theorem child_environment_any_order
    (range1 range2 : forall V : Type, gmap string V -> list (string * V))
    (envConfig : Environment) (o : OS) (command : string)
    (args : list string) :
  (forall (V : Type) (m : gmap string V), range1 V m ≡ₚ map_to_list m) ->
  (forall (V : Type) (m : gmap string V), range2 V m ≡ₚ map_to_list m) ->
  (forall k, k ∈ dom (Variables envConfig) -> plain_name k) ->
  let cmd1 := Run_cmd range1 envConfig command args o in
  let cmd2 := Run_cmd range2 envConfig command args o in
  Cmd_env (os_Environ o) cmd1 ≡ₚ Cmd_env (os_Environ o) cmd2
  /\ take (length (os_Environ o)) (Cmd_env (os_Environ o) cmd1) = os_Environ o
  /\ take (length (os_Environ o)) (Cmd_env (os_Environ o) cmd2) = os_Environ o
  /\ snd (dedupEnv (Cmd_env (os_Environ o) cmd1))
     = snd (dedupEnv (Cmd_env (os_Environ o) cmd2))
  /\ ((forall k v, Variables envConfig !! k = Some v ->
         has_NUL k = false /\ has_NUL v = false) ->
      Forall (fun kv => has_NUL kv = false) (os_Environ o) ->
      env_map (Cmd_environ (os_Environ o) cmd1)
      = env_map (Cmd_environ (os_Environ o) cmd2)).
Proof.
  intros H1 H2 Hplain cmd1 cmd2. subst cmd1 cmd2.
  assert (Hperm : Cmd_env (os_Environ o) (Run_cmd range1 envConfig command args o)
                  ≡ₚ Cmd_env (os_Environ o)
                       (Run_cmd range2 envConfig command args o)).
  { unfold Cmd_env.
    destruct (decide (Variables envConfig = ∅)) as [He|Hne].
    - rewrite !Run_cmd_Env_none by exact He. reflexivity.
    - rewrite !Run_cmd_Env_some by exact Hne.
      apply Permutation_app_head, fmap_Permutation.
      rewrite (H1 _ _), (H2 _ _). reflexivity. }
  assert (Htake : forall range,
            take (length (os_Environ o))
                 (Cmd_env (os_Environ o)
                    (Run_cmd range envConfig command args o))
            = os_Environ o).
  { intros range. unfold Cmd_env.
    destruct (decide (Variables envConfig = ∅)) as [He|Hne].
    - rewrite Run_cmd_Env_none by exact He. apply firstn_all.
    - rewrite Run_cmd_Env_some by exact Hne. apply take_app_length. }
  split; [exact Hperm|]. split; [apply Htake|]. split; [apply Htake|].
  split.
  - rewrite !dedupEnv_error, (existsb_Permutation _ _ _ Hperm). reflexivity.
  - intros Hclean Hinh.
    rewrite (Run_cmd_env_map range1 H1) by assumption.
    rewrite (Run_cmd_env_map range2 H2) by assumption.
    reflexivity.
Qed.

(** X11. The first run with the name [glm].  When the file is missing and
    can be created, [main] creates it, finds [glm] in what it reads back
    and calls [Cmd.Run] for [claude] without arguments, having appended
    the nine variables of the default file to the inherited entries; the
    child is given the inherited environment with these nine laid over
    it.  The exit status is 0 when [Cmd.Run] returns no error and 1,
    after a line on standard error, when it returns one. *)
Theorem first_run_glm_starts_claude
    (map_range : forall V : Type, gmap string V -> list (string * V))
    (o : OS) (h : path) (prog : string) (rest : list string) :
  (forall (V : Type) (m : gmap string V), map_range V m ≡ₚ map_to_list m) ->
  os_home o = Some h ->
  os_IsNotExist (fst (os_Stat (configPathOf h) o)) = true ->
  os_readonly o = false ->
  Forall (fun kv => has_NUL kv = false) (os_Environ o) ->
  let o1 :=
    evolves o (with_default_config (os_fs o) h)
      ([EvStat (configPathOf h); EvMkdirAll (configDirOf h);
        EvWriteFile (configPathOf h) defaultConfig]
       ++ created_notice (configPathOf h) ++ [EvReadFile (configPathOf h)]) in
  let cmd := Run_cmd map_range glm_default "claude" [] o1 in
  let environ := Cmd_environ (os_Environ o) cmd in
  Path cmd = "claude"%string
  /\ Args cmd = ["claude"%string]
  /\ (exists entries,
         Env cmd = Some (os_Environ o ++ entries)
         /\ length entries = 9%nat)
  /\ env_map environ = Variables glm_default ∪ env_map (os_Environ o)
  /\ (os_lookPath o "claude" = None ->
      os_child o cmd environ = os_spawn o cmd environ)
  /\ main Yaml.Unmarshal map_range (prog :: "glm"%string :: rest) o
     = match os_child o cmd environ with
       | None => (0, emit (EvRun cmd environ) o1)
       | Some err =>
         (1, log_Fatalf ("Failed to run command: " +:+ Error err)
               (emit (EvRun cmd environ) o1))
       end.
Proof.
  intros Hperm Hh Hstat Hrw Hinh o1 cmd environ.
  pose proof (LoadConfig_creates_default o h Hh Hstat Hrw) as HL.
  fold o1 in HL.
  assert (Hl : lookupEnvironment default_Config "glm" = Some glm_default)
    by (vm_compute; reflexivity).
  assert (HF : Strings.Fields (Target glm_default) = ["claude"%string])
    by (vm_compute; reflexivity).
  pose proof (Run_launch map_range glm_default o1 "claude" [] HF) as HR.
  fold cmd in HR. unfold Cmd_Run in HR.
  change (Cmd_environ (os_Environ o1) cmd) with environ in HR.
  change (os_child o1) with (os_child o) in HR.
  assert (Hne : Variables glm_default <> ∅).
  { intros He. pose proof glm_default_size as Hsz.
    rewrite He, map_size_empty in Hsz. discriminate. }
  split; [apply Run_cmd_Path|]. split; [apply Run_cmd_Args|].
  split.
  { eexists. split.
    - apply (Run_cmd_Env_some map_range glm_default o1). exact Hne.
    - rewrite length_fmap, (Hperm _ _), length_map_to_list.
      exact glm_default_size. }
  split.
  { apply (Run_cmd_env_map map_range Hperm glm_default o1 "claude" []).
    - exact glm_default_plain.
    - exact glm_default_clean.
    - exact Hinh. }
  split.
  { intros Hfound.
    apply (os_child_spawn map_range Hperm glm_default o1 "claude" []).
    - exact glm_default_clean.
    - exact Hinh.
    - exact Hfound. }
  destruct (os_child o cmd environ) as [err|] eqn:Hc.
  - apply (main_run_failed Yaml.Unmarshal map_range prog "glm" rest o
             default_Config o1 glm_default err _ HL Hl).
    exact HR.
  - apply (main_run_ok Yaml.Unmarshal map_range prog "glm" rest o
             default_Config o1 glm_default _ HL Hl).
    exact HR.
Qed.

(** ** The further properties at work *)

Lemma no_home_touches_nothing_witness :
  os_home os_no_home = None
  /\ main Yaml.Unmarshal range_in_map_order ["cs"; "glm"]%string os_no_home
     = (1, evolves os_no_home fs_home
             [EvStderr "Failed to load configuration: failed to get user home directory: $HOME is not defined"])
  /\ os_fs (snd (main Yaml.Unmarshal range_in_map_order ["cs"%string]
                      os_no_home)) = fs_home.
Proof.
  pose proof (no_home_touches_nothing Yaml.Unmarshal range_in_map_order
                ["cs"; "glm"]%string os_no_home eq_refl) as H.
  pose proof (no_home_touches_nothing Yaml.Unmarshal range_in_map_order
                ["cs"%string] os_no_home eq_refl) as H'.
  cbv zeta in H, H'.
  destruct H as (_ & _ & _ & Hlong & _).
  destruct H' as (_ & _ & _ & _ & _ & Hfs & _).
  split; [reflexivity|].
  split; [exact (Hlong ltac:(cbn; lia)) | exact Hfs].
Defined.




Lemma Run_splits_spaced_target_witness :
  spaced node_parts " "
  /\ assemble node_parts " "
     = ("node  server.js" +:+ String "009"%char "--port=80 ")%string
  /\ Strings.Fields (assemble node_parts " ")
     = ["node"; "server.js"; "--port=80"]%string
  /\ Run range_in_map_order
         {| Target := assemble node_parts_tidy ""; Variables := ∅ |}
         os_first_run
     = Run range_in_map_order
         {| Target := assemble node_parts " "; Variables := ∅ |}
         os_first_run.
Proof.
  assert (Hsp : spaced node_parts " ").
  { unfold spaced, blanks, plain_word, ascii_blank.
    apply (bool_decide_unpack _). vm_compute. exact I. }
  assert (Hsp' : spaced node_parts_tidy "").
  { unfold spaced, blanks, plain_word, ascii_blank.
    apply (bool_decide_unpack _). vm_compute. exact I. }
  pose proof (Run_splits_spaced_target range_in_map_order node_parts " " ∅
                os_first_run "node" ["server.js"; "--port=80"]%string
                Hsp eq_refl) as H.
  cbv zeta in H. destruct H as (HF & _ & _ & _ & Hsame).
  split; [exact Hsp|]. split; [reflexivity|]. split; [exact HF|].
  exact (Hsame node_parts_tidy ""%string Hsp' eq_refl).
Defined.

Lemma child_environment_any_order_witness :
  (forall k, k ∈ dom (Variables env_node) -> plain_name k)
  /\ Cmd_environ (os_Environ os_first_run)
       (Run_cmd range_in_map_order env_node "node" ["server.js"%string]
                os_first_run)
     = ["HOME=/home/user"; "PATH=/usr/bin"; "NODE_ENV=production";
        "PORT=3000"]%string
  /\ Cmd_environ (os_Environ os_first_run)
       (Run_cmd range_reversed env_node "node" ["server.js"%string]
                os_first_run)
     = ["HOME=/home/user"; "PATH=/usr/bin"; "PORT=3000";
        "NODE_ENV=production"]%string
  /\ env_map (Cmd_environ (os_Environ os_first_run)
                (Run_cmd range_in_map_order env_node "node"
                         ["server.js"%string] os_first_run))
     = env_map (Cmd_environ (os_Environ os_first_run)
                  (Run_cmd range_reversed env_node "node"
                           ["server.js"%string] os_first_run)).
Proof.
  assert (Hplain : forall k, k ∈ dom (Variables env_node) -> plain_name k).
  { apply (bool_decide_unpack (set_Forall plain_name (dom (Variables env_node)))).
    vm_compute. exact I. }
  assert (Hclean : forall k v, Variables env_node !! k = Some v ->
                     has_NUL k = false /\ has_NUL v = false).
  { apply (bool_decide_unpack
             (map_Forall (fun k v => has_NUL k = false /\ has_NUL v = false)
                         (Variables env_node))).
    vm_compute. exact I. }
  pose proof (child_environment_any_order range_in_map_order range_reversed
                env_node os_first_run "node" ["server.js"%string]
                range_in_map_order_perm range_reversed_perm Hplain) as H.
  cbv zeta in H. destruct H as (_ & _ & _ & _ & Hmap).
  split; [exact Hplain|].
  split; [vm_compute; reflexivity|]. split; [vm_compute; reflexivity|].
  apply Hmap; [exact Hclean | repeat constructor].
Defined.

Lemma first_run_glm_starts_claude_witness :
  os_home os_first_run = Some home_user
  /\ os_IsNotExist (fst (os_Stat (configPathOf home_user) os_first_run)) = true
  /\ os_readonly os_first_run = false
  /\ Forall (fun kv => has_NUL kv = false) (os_Environ os_first_run)
  /\ fst (main Yaml.Unmarshal range_in_map_order ["cs"; "glm"]%string
               os_first_run) = 0
  /\ started (os_trace (snd (main Yaml.Unmarshal range_in_map_order
                                 ["cs"; "glm"]%string os_first_run)))
     = [Run_cmd range_in_map_order glm_default "claude" [] os_first_run].
Proof.
  assert (Hstat : os_IsNotExist
                    (fst (os_Stat (configPathOf home_user) os_first_run)) = true)
    by (vm_compute; reflexivity).
  assert (Hinh : Forall (fun kv => has_NUL kv = false)
                        (os_Environ os_first_run))
    by (repeat constructor).
  pose proof (first_run_glm_starts_claude range_in_map_order os_first_run
                home_user "cs" [] range_in_map_order_perm eq_refl Hstat
                eq_refl Hinh) as H.
  cbv zeta in H. destruct H as (_ & _ & _ & _ & _ & Hmain).
  split; [reflexivity|]. split; [exact Hstat|]. split; [reflexivity|].
  split; [exact Hinh|].
  rewrite Hmain. split; reflexivity.
Defined.


(** Without the condition on the names the order shows: the two entries
    of [env_same_entry_name] both define [A], and the one visited last
    wins. *)
Example order_shows_for_equals_in_name :
  env_map (Cmd_environ (os_Environ os_first_run)
             (Run_cmd range_in_map_order env_same_entry_name "printenv" []
                      os_first_run)) !! "A"%string = Some "B=x"%string
  /\ env_map (Cmd_environ (os_Environ os_first_run)
                (Run_cmd range_reversed env_same_entry_name "printenv" []
                         os_first_run)) !! "A"%string = Some "B=y"%string.
Proof. split; vm_compute; reflexivity. Qed.

(** The ways in which [LoadConfig] fails, one state for each: no home
    directory; no change accepted; the directory made and the write
    refused; a directory where the file should be; a file where the
    directory should be; a file that is not a configuration. *)
Example LoadConfig_failures :
  fst (LoadConfig Yaml.Unmarshal os_no_home)
  = Err (wrapError "failed to get user home directory: "
                   (errorString "$HOME is not defined"))
  /\ fst (LoadConfig Yaml.Unmarshal os_first_run_readonly)
     = Err (wrapError "failed to create default config: "
              (wrapError "failed to create config directory: "
                 (PathError "mkdir" (configDirOf home_user) EROFS)))
  /\ fst (LoadConfig Yaml.Unmarshal os_first_run_no_file)
     = Err (wrapError "failed to create default config: "
              (PathError "open" (configPathOf home_user) EACCES))
  /\ fst (LoadConfig Yaml.Unmarshal
            {| os_home := Some home_user; os_environ := [];
               os_fs := <[configPathOf home_user := Dir]>
                          (<[configDirOf home_user := Dir]> fs_home);
               os_refusal := accepts_changes; os_lookPath := lookPath_finds;
               os_spawn := child_succeeds;
               os_trace := [] |})
     = Err (wrapError "failed to read config file: "
              (PathError "read" (configPathOf home_user) EISDIR))
  /\ fst (LoadConfig Yaml.Unmarshal
            {| os_home := Some home_user; os_environ := [];
               os_fs := <[configDirOf home_user := File "in the way"]> fs_home;
               os_refusal := accepts_changes; os_lookPath := lookPath_finds;
               os_spawn := child_succeeds;
               os_trace := [] |})
     = Err (wrapError "failed to read config file: "
              (PathError "open" (configPathOf home_user) ENOTDIR))
  /\ exists cause,
       fst (LoadConfig Yaml.Unmarshal (os_with_config not_a_mapping))
       = Err (wrapError "failed to parse config file: " cause).
Proof.
  repeat (split; [vm_compute; reflexivity|]).
  eexists. vm_compute. reflexivity.
Qed.
